(** * Datachad ingestion pipeline: [datachad/backend/loader.py]

    A shallow embedding of the loader module and the properties of its
    FAQ splitter, Git loader, dispatch tables, directory walk and chunk
    overlap computation.

    Conventions of the embedding.
    - A Python [str] is a [string]; a character is a code point below 256
      (Latin-1).  On that range the regex class [\d] is exactly ['0'..'9'] and
      [str.strip()] removes the code points for which [str.isspace] holds.
    - A Python call that may raise returns an [outcome]: [Return v] or
      [Raise e].  Only exceptions derived from [Exception] are modelled (the
      [except Exception] handlers of the module catch exactly those).
    - Dictionaries are [gmap]s.
    - The collaborators imported from other packages (the LangChain loaders,
      the text splitter, [pathlib]'s [rglob]) and the constants of the sibling
      modules ([DATA_PATH], [STORES.SMART_FAQ]) are parameters of the sections
      that use them.
    - The file system is a finite map from paths to nodes, regular files
      and directories that the process may read and change; a path is
      written as [pathlib] writes it, without empty components or a trailing
      separator, and on a disk every entry lies in directories.
      [os.makedirs] creates the missing directories above its argument and
      raises when it meets a regular file; [shutil.rmtree] removes a
      directory with what lies below it, and raises on a regular file, which
      it leaves in place.
    - [exn_args] keeps each element of [e.args] as [str] renders it; an
      [OSError] carries [errno] and [strerror] (the Linux values).
    - [re.split] cuts at empty matches, as it does from Python 3.7 on (the
      module's [list[Document]] annotations need 3.9). *)

From Stdlib Require Import ZArith Lia String Ascii List Bool.
From stdpp Require Import base option list strings gmap.
Import ListNotations.

Local Open Scope string_scope.

(** ** Exceptions and outcomes *)

Inductive exn_class : Type :=
  | IndexError
  | ValueError
  | TypeError
  | RuntimeError
  | OverflowError
  | ZeroDivisionError
  | FileExistsError
  | FileNotFoundError
  | NotADirectoryError
  | LoaderError (name : string).

Record exn : Type := MkExn { exn_type : exn_class; exn_args : list string }.

Inductive outcome (A : Type) : Type :=
  | Return (a : A)
  | Raise (e : exn).

Arguments Return {A} a.
Arguments Raise {A} e.

(** Sequencing: the continuation runs on a returned value, an exception
    propagates.  The instances give stdpp's [x ← m; k] notation. *)
#[global] Instance outcome_bind : MBind outcome := fun A B k m =>
  match m with
  | Return a => k a
  | Raise e => Raise e
  end.

#[global] Instance outcome_ret : MRet outcome := fun A a => Return a.

(** A list comprehension whose element expression may raise: elements are
    evaluated left to right and the first exception aborts the comprehension. *)
Fixpoint comprehension {A B : Type} (f : A -> outcome B) (l : list A) : outcome (list B) :=
  match l with
  | [] => Return []
  | x :: l' => y ← f x; ys ← comprehension f l'; Return (y :: ys)
  end.

(** ** Documents *)

Inductive meta_value : Type :=
  | MInt (z : Z)
  | MStr (s : string).

Record Document : Type := MkDocument {
  page_content : string;
  metadata : gmap string meta_value
}.

(** ** Characters and the string primitives the module calls *)

Definition LF : ascii := "010"%char.

Definition code (c : ascii) : N := N_of_ascii c.

(** [\d] on code points below 256. *)
Definition is_digit (c : ascii) : bool :=
  ((48 <=? code c) && (code c <=? 57))%N.

Definition digit_value (c : ascii) : Z := (Z.of_N (code c) - 48)%Z.

(** [str.isspace] on code points below 256: TAB..CR, FS..US, SPACE, NEL, NBSP. *)
Definition is_space (c : ascii) : bool :=
  (((9 <=? code c) && (code c <=? 13)) || ((28 <=? code c) && (code c <=? 32))
   || (code c =? 133) || (code c =? 160))%N.

Definition is_LF (c : ascii) : bool := (code c =? 10)%N.

(** [lstrip_while p s] drops the longest prefix of [s] whose characters
    satisfy [p]; [rstrip_while] the longest such suffix. *)
Fixpoint lstrip_while (p : ascii -> bool) (s : string) : string :=
  match s with
  | EmptyString => EmptyString
  | String c s' => if p c then lstrip_while p s' else s
  end.

Fixpoint rstrip_while (p : ascii -> bool) (s : string) : string :=
  match s with
  | EmptyString => EmptyString
  | String c s' =>
      match rstrip_while p s' with
      | EmptyString => if p c then EmptyString else String c EmptyString
      | r => String c r
      end
  end.

(** [s.strip()] *)
Definition strip (s : string) : string := rstrip_while is_space (lstrip_while is_space s).

(** [re.sub(r"^\n+|\n+$", "", s)].  Without [re.MULTILINE], [^\n+] matches
    only the run of newlines at offset 0, and [\n+$] only a run of newlines
    that reaches the end of the string (a run that stops before the end is
    followed by a character other than a newline, where [$] does not match).
    Both runs are replaced by the empty string. *)
Definition sub_newlines (s : string) : string := rstrip_while is_LF (lstrip_while is_LF s).

(** [s] begins with a non-empty run of digits followed by a period: the tail
    [\d+\.] of the lookahead.  The run is the maximal one, since a shorter
    run is followed by a digit, not by the period. *)
Fixpoint digits_dot (seen : bool) (s : string) : bool :=
  match s with
  | EmptyString => false
  | String c s' =>
      if is_digit c then digits_dot true s'
      else seen && (code c =? 46)%N
  end.

(** The lookahead [(?=\n\n\d+\.)] holds at the head of [s]. *)
Definition boundary (s : string) : bool :=
  match s with
  | String c1 (String c2 s') => is_LF c1 && is_LF c2 && digits_dot false s'
  | _ => false
  end.

(** The pieces of [s] cut at every offset [i >= 1] where the lookahead holds. *)
Fixpoint pieces (s : string) : list string :=
  match s with
  | EmptyString => [EmptyString]
  | String c s' =>
      if boundary s' then String c EmptyString :: pieces s'
      else match pieces s' with
           | p :: ps => String c p :: ps
           | [] => [String c EmptyString]
           end
  end.

(** [re.split(r"(?=\n\n\d+\.)", s)]: the pattern matches the empty string
    only, [re.split] cuts at every offset where it matches, and a match at
    offset 0 yields an empty first piece. *)
Definition re_split (s : string) : list string :=
  if boundary s then EmptyString :: pieces s else pieces s.

(** [re.findall(r"\d", s)]: every digit of [s], each as a one-character string. *)
Fixpoint re_findall (s : string) : list string :=
  match s with
  | EmptyString => []
  | String c s' =>
      if is_digit c then String c EmptyString :: re_findall s' else re_findall s'
  end.

(** [int(s)] for a string of decimal digits; [ValueError] otherwise.  (The
    signs, blanks and underscores [int] also accepts cannot occur in a match
    of [\d].) *)
Fixpoint int_digits (acc : Z) (s : string) : option Z :=
  match s with
  | EmptyString => Some acc
  | String c s' => if is_digit c then int_digits (10 * acc + digit_value c)%Z s' else None
  end.

Definition int (s : string) : outcome Z :=
  match s with
  | EmptyString => Raise (MkExn ValueError ["invalid literal for int()"])
  | _ => match int_digits 0 s with
         | Some z => Return z
         | None => Raise (MkExn ValueError ["invalid literal for int()"])
         end
  end.

(** ** [SmartFAQSplitter] *)

Module SmartFAQSplitter.

(** [Document(page_content=text, metadata={"faq_no": int(re.findall(r"\d", text)[0])})] *)
Definition faq_chunk (text : string) : outcome Document :=
  match re_findall text with
  | [] => Raise (MkExn IndexError ["list index out of range"])
  | d :: _ =>
      n ← int d;
      Return (MkDocument text {[ "faq_no" := MInt n ]})
  end.

(** The body of the [for document in documents] loop: the chunks appended to
    [splitted_documents]. *)
Definition split_text (document : Document) : list string :=
  re_split (strip (page_content document)).

Definition filtered_text (document : Document) : list string :=
  sub_newlines <$> split_text document.

Fixpoint split_loop (documents : list Document) (splitted_documents : list Document)
  : outcome (list Document) :=
  match documents with
  | [] => Return splitted_documents
  | document :: rest =>
      chunks ← comprehension faq_chunk (filtered_text document);
      split_loop rest (splitted_documents ++ chunks)
  end.

Definition split_documents (documents : list Document) : outcome (list Document) :=
  split_loop documents [].

End SmartFAQSplitter.

Definition text_doc (s : string) : Document := MkDocument s ∅.

Definition nl : string := String LF EmptyString.

Definition faq_example : string :=
  nl ++ nl ++ "1. A" ++ nl ++ "text" ++ nl ++ nl ++ nl ++ "2. B" ++ nl ++ "text".

Definition index_error : exn := MkExn IndexError ["list index out of range"].

(** [s] contains a digit character. *)
Fixpoint has_digit (s : string) : bool :=
  match s with
  | EmptyString => false
  | String c s' => is_digit c || has_digit s'
  end.

(** The first digit of [s], if any. *)
Fixpoint first_digit (s : string) : option ascii :=
  match s with
  | EmptyString => None
  | String c s' => if is_digit c then Some c else first_digit s'
  end.

(** The specification's reading of [faq_no]: the integer denoted by the
    first maximal run of digits of [s]. *)
Fixpoint take_digits (s : string) : string :=
  match s with
  | EmptyString => EmptyString
  | String c s' => if is_digit c then String c (take_digits s') else EmptyString
  end.

Fixpoint first_digit_run (s : string) : string :=
  match s with
  | EmptyString => EmptyString
  | String c s' => if is_digit c then String c (take_digits s') else first_digit_run s'
  end.

Definition first_digit_sequence (s : string) : option Z :=
  match first_digit_run s with
  | EmptyString => None
  | r => int_digits 0 r
  end.

(** A string that begins with two newlines and a digit. *)
Definition numbered (p : string) : Prop :=
  exists c r, p = String LF (String LF (String c r)) /\ is_digit c = true.

(** The concatenation of a list of strings. *)
Fixpoint concat_strings (l : list string) : string :=
  match l with
  | [] => EmptyString
  | x :: l' => x ++ concat_strings l'
  end.

(** [s[0]] and [s[-1]], when [s] is not empty. *)
Definition head_char (s : string) : option ascii :=
  match s with
  | EmptyString => None
  | String c _ => Some c
  end.

Fixpoint last_char (s : string) : option ascii :=
  match s with
  | EmptyString => None
  | String c EmptyString => Some c
  | String _ s' => last_char s'
  end.

(** Every character of [s] satisfies [p]. *)
Fixpoint all_chars (p : ascii -> bool) (s : string) : bool :=
  match s with
  | EmptyString => true
  | String c s' => p c && all_chars p s'
  end.

(** ** More string primitives *)

(** [s.split(sep)] for a one-character separator: never empty. *)
Fixpoint split (sep : ascii) (s : string) : list string :=
  match s with
  | EmptyString => [EmptyString]
  | String c s' =>
      if Ascii.eqb c sep then EmptyString :: split sep s'
      else match split sep s' with
           | p :: ps => String c p :: ps
           | [] => [String c EmptyString]
           end
  end.

(** [s.rsplit(sep, 1)]: cut at the last separator only; [[s]] when there is none. *)
Fixpoint rsplit1 (sep : ascii) (s : string) : list string :=
  match s with
  | EmptyString => [EmptyString]
  | String c s' =>
      match rsplit1 sep s' with
      | [t] => if Ascii.eqb c sep then [EmptyString; t] else [String c t]
      | h :: rest => String c h :: rest
      | [] => [String c EmptyString]
      end
  end.

(** [c in s] *)
Fixpoint contains (c : ascii) (s : string) : bool :=
  match s with
  | EmptyString => false
  | String a s' => Ascii.eqb a c || contains c s'
  end.

(** [l[0]] and [l[-1]] for the lists above (which are never empty). *)
Definition at_first (l : list string) : string := hd EmptyString l.
Definition at_last (l : list string) : string := List.last l EmptyString.

(** [s.startswith(p)] *)
Definition startswith (p s : string) : bool := String.prefix p s.

(** The specification's reading of the clone directory name: the last path
    segment with only its trailing suffix (the text from its last period on)
    removed. *)
Definition spec_clone_dir (data_source : string) : string :=
  at_first (rsplit1 "." (at_last (split "/" data_source))).

(** ** The world the loaders act on

    The file system maps a path to the kind of node found there.  The log
    keeps what the module hands to [logger]; [git_calls] records the
    arguments of every [GitLoader(...)] call and [pbar] the updates of the
    progress bar. *)

Inductive node : Type := File | Dir.

Inductive log_record : Type :=
  | Error_loading_git (e : exn)          (* logger.error(f"Error loading git: {e}") *)
  | Error_failed_to_load (file : string) (* logger.error(f"failed to load {file}") *)
  | Error_message (msg : string)         (* logger.error(error_msg) *)
  | Info_loaded (n : nat).               (* logger.info(f"Loaded: {n} document chucks") *)

Record World : Type := MkWorld {
  fs : gmap string node;
  log : list log_record;
  git_calls : list (string * option string * string);
  pbar : nat
}.

Definition set_fs (f : gmap string node) (w : World) : World :=
  MkWorld f (log w) (git_calls w) (pbar w).

Definition logger (r : log_record) (w : World) : World :=
  MkWorld (fs w) (log w ++ [r]) (git_calls w) (pbar w).

Definition record_git_call (c : string * option string * string) (w : World) : World :=
  MkWorld (fs w) (log w) (git_calls w ++ [c]) (pbar w).

Definition pbar_update (w : World) : World :=
  MkWorld (fs w) (log w) (git_calls w) (S (pbar w)).

(** The log only grows. *)
Definition log_extends (w w' : World) : Prop := exists l, log w' = (log w ++ l)%list.

(** [os.path.exists], [os.path.isdir], [os.path.isfile] *)
Definition path_exists (p : string) (f : gmap string node) : bool :=
  match f !! p with Some _ => true | None => false end.

Definition isdir (p : string) (f : gmap string node) : bool :=
  match f !! p with Some Dir => true | _ => false end.

Definition isfile (p : string) (f : gmap string node) : bool :=
  match f !! p with Some File => true | _ => false end.

(** The [OSError]s the file-system calls raise. *)
Definition file_exists_error : exn := MkExn FileExistsError ["17"; "File exists"].

Definition file_not_found_error : exn :=
  MkExn FileNotFoundError ["2"; "No such file or directory"].

Definition not_a_directory_error : exn :=
  MkExn NotADirectoryError ["20"; "Not a directory"].

(** The directories a path lies in, below the root, outermost first: the
    proper prefixes of the path that end before a separator.
    ["/a/b/data"] lies in ["/a"] and ["/a/b"]. *)
Fixpoint ancestors_from (pre s : string) : list string :=
  match s with
  | EmptyString => []
  | String c s' =>
      (if Ascii.eqb c "/" && negb (String.eqb pre "") then [pre] else []) ++
      ancestors_from (pre ++ String c EmptyString) s'
  end.

Definition ancestors (p : string) : list string := ancestors_from "" p.

(** [os.mkdir(p)], where [parent] is the directory [p] lies in ([None] for
    an entry of the root or of the working directory, which are there). *)
Definition mkdir (p : string) (parent : option string) (f : gmap string node)
  : gmap string node * outcome unit :=
  let parent_node :=
    match parent with
    | Some d => f !! d
    | None => Some Dir
    end in
  match parent_node with
  | None => (f, Raise file_not_found_error)
  | Some File => (f, Raise not_a_directory_error)
  | Some Dir =>
      match f !! p with
      | Some _ => (f, Raise file_exists_error)
      | None => (<[p := Dir]> f, Return tt)
      end
  end.

(** The recursion of [os.makedirs]: [parents] are the directories [p] lies
    in, innermost first.  A missing parent is made first, with the parents
    above it; a [FileExistsError] of that recursive call is passed over, any
    other exception propagates; then [p] itself is made. *)
Fixpoint makedirs_up (p : string) (parents : list string) (f : gmap string node)
  : gmap string node * outcome unit :=
  match parents with
  | [] => mkdir p None f
  | head :: above =>
      if path_exists head f then mkdir p (Some head) f
      else
        let '(f1, r) := makedirs_up head above f in
        match r with
        | Return _ => mkdir p (Some head) f1
        | Raise e =>
            match exn_type e with
            | FileExistsError => mkdir p (Some head) f1
            | _ => (f1, Raise e)
            end
        end
  end.

(** [os.makedirs(p)] *)
Definition makedirs (p : string) (f : gmap string node)
  : gmap string node * outcome unit :=
  makedirs_up p (reverse (ancestors p)) f.

(** [q] is [p] or lies below it. *)
Definition under (p q : string) : bool :=
  String.eqb p q || String.prefix (p ++ "/") q.

(** [shutil.rmtree(p)]: a directory is removed with everything below it; a
    regular file raises [NotADirectoryError] and stays; a missing path raises
    [FileNotFoundError], or [NotADirectoryError] when a regular file is on
    the way to it. *)
Definition rmtree (p : string) (f : gmap string node)
  : gmap string node * outcome unit :=
  match f !! p with
  | Some Dir => (filter (fun kv => under p kv.1 = false) f, Return tt)
  | Some File => (f, Raise not_a_directory_error)
  | None =>
      if existsb (fun d => isfile d f) (ancestors p)
      then (f, Raise not_a_directory_error)
      else (f, Raise file_not_found_error)
  end.

(** [str((DATA_PATH / name).absolute())] for an absolute [DATA_PATH] and a
    [name] without separators: joining the empty name gives [DATA_PATH]. *)
Definition joinpath (data_path name : string) : string :=
  match name with
  | EmptyString => data_path
  | _ => data_path ++ "/" ++ name
  end.

(** ** The loader classes the two registries name *)

Inductive loader_class : Type :=
  | CSVLoader
  | EverNoteLoader
  | NotebookLoader
  | OnlinePDFLoader
  | PyPDFium2Loader
  | PythonLoader
  | TextLoader
  | UnstructuredEPubLoader
  | UnstructuredFileLoader
  | UnstructuredHTMLLoader
  | UnstructuredMarkdownLoader
  | UnstructuredODTLoader
  | UnstructuredPowerPointLoader
  | UnstructuredWordDocumentLoader
  | WebBaseLoader
  | AutoGitLoader.

Definition loader_args : Type := list (string * string).

Definition FILE_LOADER_MAPPING : gmap string (loader_class * loader_args) :=
  list_to_map [
    (".csv", (CSVLoader, [("encoding", "utf-8")]));
    (".doc", (UnstructuredWordDocumentLoader, []));
    (".docx", (UnstructuredWordDocumentLoader, []));
    (".enex", (EverNoteLoader, []));
    (".epub", (UnstructuredEPubLoader, []));
    (".html", (UnstructuredHTMLLoader, []));
    (".md", (UnstructuredMarkdownLoader, []));
    (".odt", (UnstructuredODTLoader, []));
    (".pdf", (PyPDFium2Loader, []));
    (".ppt", (UnstructuredPowerPointLoader, []));
    (".pptx", (UnstructuredPowerPointLoader, []));
    (".txt", (TextLoader, [("encoding", "utf8")]));
    (".ipynb", (NotebookLoader, []));
    (".py", (PythonLoader, []))
  ].

Definition WEB_LOADER_MAPPING : gmap string (loader_class * loader_args) :=
  list_to_map [
    (".git", (AutoGitLoader, []));
    (".pdf", (OnlinePDFLoader, []))
  ].

(** [ext = "." + file_path.rsplit(".", 1)[-1]] *)
Definition ext_of (file_path : string) : string :=
  "." ++ at_last (rsplit1 "." file_path).

(** The loader [load_document] builds: the registry's entry for the
    extension, the default loader without arguments when there is none. *)
Definition choose_loader (file_path : string)
    (mapping : gmap string (loader_class * loader_args))
    (default_loader : loader_class) : loader_class * loader_args :=
  match mapping !! ext_of file_path with
  | Some entry => entry
  | None => (default_loader, [])
  end.

(** ** The loaders, over the collaborators of other packages

    [DATA_PATH] comes from [datachad.backend.constants]; [GitLoader] and the
    other loader classes from LangChain; [rglob] from [pathlib].  Each
    collaborator reads and changes the file system and returns or raises. *)

Section Loaders.

Variable DATA_PATH : string.

(** [GitLoader(repo_path, clone_url, branch).load()] *)
Variable GitLoader :
  string -> option string -> string -> gmap string node ->
  gmap string node * outcome (list Document).

(** [loader_class(file_path, **loader_args).load()] for the imported classes. *)
Variable library_loader :
  loader_class -> loader_args -> string -> gmap string node ->
  gmap string node * outcome (list Document).

(** [list(Path(path).rglob("**/[!.]*"))] *)
Variable rglob : string -> gmap string node -> list string.

(** [repo_name = self.data_source.split("/")[-1].split(".")[0]] *)
Definition repo_name (data_source : string) : string :=
  at_first (split "." (at_last (split "/" data_source))).

Definition repo_path (data_source : string) : string :=
  joinpath DATA_PATH (repo_name data_source).

(** The [for branch in branches] loop with its [try]/[except]/[break]:
    [Some docs] when an attempt bound [docs], [None] when none did. *)
Fixpoint try_branches (path : string) (clone_url : option string)
    (branches : list string) (w : World) : World * option (list Document) :=
  match branches with
  | [] => (w, None)
  | branch :: rest =>
      let '(f, r) := GitLoader path clone_url branch (fs w) in
      let w1 := record_git_call (path, clone_url, branch) (set_fs f w) in
      match r with
      | Return docs => (w1, Some docs)
      | Raise e => try_branches path clone_url rest (logger (Error_loading_git e) w1)
      end
  end.

Definition https_hint : string :=
  "Error loading git. Make sure to use HTTPS GitHub repo links.".

(** [if not os.path.exists(DATA_PATH): os.makedirs(DATA_PATH)] *)
Definition ensure_data_path (w : World) : World * outcome unit :=
  if path_exists DATA_PATH (fs w) then (w, Return tt)
  else let '(f, r) := makedirs DATA_PATH (fs w) in (set_fs f w, r).

(** [clone_url = self.data_source], reset to [None] when [repo_path] exists. *)
Definition clone_url_of (data_source : string) (w : World) : option string :=
  if path_exists (repo_path data_source) (fs w) then None else Some data_source.

(** [if os.path.exists(repo_path): shutil.rmtree(repo_path)] *)
Definition cleanup (path : string) (w : World) : World * outcome unit :=
  if path_exists path (fs w)
  then let '(f, r) := rmtree path (fs w) in (set_fs f w, r)
  else (w, Return tt).

(** [AutoGitLoader(data_source).load()].  An exception of [os.makedirs] or
    of [shutil.rmtree] is not caught and leaves the method.  The final
    [try: return docs] with its bare [except] raises the [RuntimeError]
    exactly when no attempt bound [docs]. *)
Definition AutoGitLoader_load (data_source : string) (w : World)
  : World * outcome (list Document) :=
  let '(w0, made) := ensure_data_path w in
  match made with
  | Raise e => (w0, Raise e)
  | Return _ =>
      let path := repo_path data_source in
      let clone_url := clone_url_of data_source w0 in
      let '(w1, docs) := try_branches path clone_url ["main"; "master"] w0 in
      let '(w2, removed) := cleanup path w1 in
      match removed with
      | Raise e => (w2, Raise e)
      | Return _ =>
          match docs with
          | Some d => (w2, Return d)
          | None => (w2, Raise (MkExn RuntimeError [https_hint]))
          end
      end
  end.

(** [loader.load()] for the loader [load_document] built. *)
Definition run_loader (loader : loader_class * loader_args) (file_path : string)
    (w : World) : World * outcome (list Document) :=
  match loader.1 with
  | AutoGitLoader => AutoGitLoader_load file_path w
  | cls =>
      let '(f, r) := library_loader cls loader.2 file_path (fs w) in
      (set_fs f w, r)
  end.

Definition load_document (file_path : string)
    (mapping : gmap string (loader_class * loader_args))
    (default_loader : loader_class) (w : World) : World * outcome (list Document) :=
  run_loader (choose_loader file_path mapping default_loader) file_path w.

(** The [for file in all_files] loop of [load_directory]. *)
Fixpoint walk (silent_errors : bool) (all_files : list string)
    (results : list Document) (w : World) : World * outcome (list Document) :=
  match all_files with
  | [] => (w, Return results)
  | file :: rest =>
      let '(w1, r) := load_document file FILE_LOADER_MAPPING UnstructuredFileLoader w in
      match r with
      | Return docs => walk silent_errors rest (results ++ docs) (pbar_update w1)
      | Raise e =>
          if silent_errors
          then walk silent_errors rest results
                 (pbar_update (logger (Error_failed_to_load file) w1))
          else (w1, Raise e)
      end
  end.

Definition load_directory (path : string) (silent_errors : bool) (w : World)
  : World * outcome (list Document) :=
  walk silent_errors (rglob path (fs w)) [] w.

(** [load_directory(path)]: [silent_errors] defaults to [True]. *)
Definition load_directory_default (path : string) (w : World)
  : World * outcome (list Document) :=
  load_directory path true w.

(** The files among [all_files] on which the loader chosen for a local file
    raises, when the files are loaded in order, each on the file system the
    loaders before it left. *)
Fixpoint raising_files (all_files : list string) (f : gmap string node) : list string :=
  match all_files with
  | [] => []
  | file :: rest =>
      let loader := choose_loader file FILE_LOADER_MAPPING UnstructuredFileLoader in
      let '(f1, r) := library_loader loader.1 loader.2 file f in
      match r with
      | Return _ => raising_files rest f1
      | Raise _ => file :: raising_files rest f1
      end
  end.

Definition error_msg (data_source : string) : string :=
  "Failed to load your data source '" ++ data_source ++ "'.".

(** The [if]/[elif] chain inside the [try] of [load_data_source]. *)
Definition dispatch (data_source : string) (w : World) : World * outcome (list Document) :=
  let is_web := startswith "http" data_source in
  let is_dir := isdir data_source (fs w) in
  let is_file := isfile data_source (fs w) in
  if is_dir then load_directory_default data_source w
  else if is_file then load_document data_source FILE_LOADER_MAPPING UnstructuredFileLoader w
  else if is_web then load_document data_source WEB_LOADER_MAPPING WebBaseLoader w
  else (w, Raise (MkExn TypeError [])).

(** The [except Exception as e] handler: log, extend [e.args], re-raise. *)
Definition reraise (data_source : string) (r : World * outcome (list Document))
  : World * outcome (list Document) :=
  match r with
  | (w, Return docs) => (w, Return docs)
  | (w, Raise e) =>
      (logger (Error_message (error_msg data_source)) w,
       Raise (MkExn (exn_type e) (exn_args e ++ [error_msg data_source])))
  end.

Definition load_data_source (data_source : string) (w : World)
  : World * outcome (list Document) :=
  reraise data_source (dispatch data_source w).

End Loaders.

(** ** Python's [int / int] and [int(float)]

    [a / b] on two [int]s is the quotient correctly rounded to a binary64
    float (53 significant bits, ties to even; [OverflowError] when the
    rounded quotient is not finite).  A finite float is kept as the pair
    [mant * 2 ^ expo]. *)

Definition overflow : exn :=
  MkExn OverflowError ["integer division result too large for a float"].

Module PyFloat.

Local Open Scope Z_scope.

Record float : Type := MkFloat { mant : Z; expo : Z }.

(** [n / d] rounded to the nearest integer, ties to even ([0 <= n], [0 < d]). *)
Definition rne_div (n d : Z) : Z :=
  let q := n / d in
  let r := n mod d in
  if 2 * r <? d then q
  else if d <? 2 * r then q + 1
  else if Z.even q then q else q + 1.

(** The [k] with [2 ^ k <= n / d < 2 ^ (k + 1)] ([0 < n], [0 < d]). *)
Definition quotient_exponent (n d : Z) : Z :=
  let k := Z.log2 n - Z.log2 d in
  if (if 0 <=? k then d * 2 ^ k <=? n else d <=? n * 2 ^ (- k)) then k else k - 1.

(** The float nearest to [n / d]: 53 bits below the leading one, and no
    exponent below that of the subnormals. *)
Definition round53 (n d : Z) : float :=
  let e := Z.max (quotient_exponent n d - 52) (-1074) in
  let m := if 0 <=? e then rne_div n (d * 2 ^ e) else rne_div (n * 2 ^ (- e)) d in
  MkFloat m e.

(** The rounded magnitude reaches [2 ^ 1024]. *)
Definition too_large (f : float) : bool :=
  (971 <? expo f) || ((expo f =? 971) && (2 ^ 53 <=? mant f)).

Definition truediv (a b : Z) : outcome float :=
  if b =? 0 then Raise (MkExn ZeroDivisionError ["division by zero"%string])
  else if a =? 0 then Return (MkFloat 0 0)
  else
    let f := round53 (Z.abs a) (Z.abs b) in
    if too_large f
    then Raise overflow
    else Return (MkFloat (Z.sgn a * Z.sgn b * mant f) (expo f)).

(** [int(f)]: truncation toward zero. *)
Definition int_of_float (f : float) : Z :=
  if 0 <=? expo f then mant f * 2 ^ expo f
  else Z.quot (mant f) (2 ^ (- expo f)).

End PyFloat.

(** ** [split_docs] *)

Record Options : Type := MkOptions {
  chunk_size : Z;
  chunk_overlap_pct : Z
}.

(** [int(options["chunk_size"] * options["chunk_overlap_pct"] / 100)] *)
Definition chunk_overlap (options : Options) : outcome Z :=
  f ← PyFloat.truediv (chunk_size options * chunk_overlap_pct options) 100;
  Return (PyFloat.int_of_float f).

Definition separators : list string :=
  [String LF (String LF EmptyString); "#"; "\."; "!"; "\?"; String LF EmptyString; ","; " "; ""].

Section SplitDocs.

(** [STORES.SMART_FAQ] comes from [datachad.backend.models]. *)
Variable SMART_FAQ : string.

(** [RecursiveCharacterTextSplitter(chunk_size, chunk_overlap, length_function,
    separators).split_documents(docs)], the length function being the token
    count of the tokenizer [get_tokenizer(options)] returns. *)
Variable RecursiveCharacterTextSplitter :
  Options -> Z -> Z -> list string -> list Document -> outcome (list Document).

Definition split_docs (docs : list Document) (store_type : string) (options : Options)
    (w : World) : World * outcome (list Document) :=
  let r :=
    if String.eqb store_type SMART_FAQ
    then SmartFAQSplitter.split_documents docs
    else
      overlap ← chunk_overlap options;
      RecursiveCharacterTextSplitter options (chunk_size options) overlap separators docs in
  match r with
  | Return splitted_docs => (logger (Info_loaded (length splitted_docs)) w, Return splitted_docs)
  | Raise e => (w, Raise e)
  end.

End SplitDocs.

(** ** Concrete collaborators for the examples

    A repository whose only branch is [master]: with a clone URL, [GitLoader]
    clones it to [path] and checks the requested branch out; without one it
    opens the checkout found at [path].  The PDF loader fails on every file;
    the other library loaders return one document per file. *)

Module Scenario.

Definition DATA_PATH : string := "/data".

Definition no_branch : exn :=
  MkExn (LoaderError "GitCommandError") ["pathspec did not match any file(s) known to git"].

Definition no_path : exn := MkExn ValueError ["Path does not exist"].

Definition repo_docs : list Document :=
  [MkDocument "A small project." {[ "file_name" := MStr "README.md" ]}].

Definition checkout (branch : string) : outcome (list Document) :=
  if String.eqb branch "master" then Return repo_docs else Raise no_branch.

Definition GitLoader (path : string) (clone_url : option string) (branch : string)
    (f : gmap string node) : gmap string node * outcome (list Document) :=
  match clone_url with
  | Some _ => (<[path := Dir]> f, checkout branch)
  | None => if path_exists path f then (f, checkout branch) else (f, Raise no_path)
  end.

(** A remote that cannot be cloned at all. *)
Definition GitLoader_unreachable (path : string) (clone_url : option string)
    (branch : string) (f : gmap string node)
  : gmap string node * outcome (list Document) :=
  (f, Raise (MkExn (LoaderError "GitCommandError") ["could not read from remote repository"])).

Definition corrupt : exn := MkExn (LoaderError "PdfiumError") ["Failed to load document"].

Definition library_loader (cls : loader_class) (args : loader_args) (file_path : string)
    (f : gmap string node) : gmap string node * outcome (list Document) :=
  match cls with
  | PyPDFium2Loader => (f, Raise corrupt)
  | _ => (f, Return [MkDocument file_path ∅])
  end.

Definition rglob (path : string) (f : gmap string node) : list string :=
  if String.eqb path "corpus" then ["corpus/notes.txt"; "corpus/broken.pdf"] else [].

Definition disk : gmap string node :=
  list_to_map [
    ("/data", Dir);
    ("/data/repo", Dir);
    ("/data/repo/README.md", File);
    ("corpus", Dir);
    ("corpus/notes.txt", File);
    ("corpus/broken.pdf", File);
    ("http_notes.txt", File)
  ].

Definition world : World := MkWorld disk [] [] 0.

Definition fresh : World := MkWorld ∅ [] [] 0.


Definition notes : list Document := [MkDocument "corpus/notes.txt" ∅].


End Scenario.

(** * Properties *)

Ltac unfold_bind := unfold mbind, outcome_bind, mret, outcome_ret in *.

(** ** The FAQ splitter *)

Section FAQ.

Import SmartFAQSplitter.

Lemma LF_not_digit c : is_LF c = true -> is_digit c = false.
Proof.
  unfold is_LF, is_digit. intros H. apply N.eqb_eq in H. rewrite H. reflexivity.
Qed.

Lemma has_digit_lstrip p s :
  (forall c, p c = true -> is_digit c = false) ->
  has_digit (lstrip_while p s) = has_digit s.
Proof.
  intros Hp. induction s as [|c s IH]; simpl; [reflexivity|].
  destruct (p c) eqn:E; [|reflexivity].
  rewrite (Hp c E). exact IH.
Qed.

Lemma has_digit_rstrip p s :
  (forall c, p c = true -> is_digit c = false) ->
  has_digit (rstrip_while p s) = has_digit s.
Proof.
  intros Hp. induction s as [|c s IH]; simpl; [reflexivity|].
  destruct (rstrip_while p s) as [|c' r] eqn:E.
  - simpl in IH. rewrite <- IH. destruct (p c) eqn:Ec; simpl.
    + rewrite (Hp c Ec). reflexivity.
    + rewrite orb_false_r. reflexivity.
  - rewrite <- IH. reflexivity.
Qed.

Lemma has_digit_sub_newlines s : has_digit (sub_newlines s) = has_digit s.
Proof.
  unfold sub_newlines.
  rewrite has_digit_rstrip, has_digit_lstrip; auto using LF_not_digit.
Qed.

Lemma re_findall_first_digit s :
  hd_error (re_findall s) = (fun c => String c EmptyString) <$> first_digit s.
Proof.
  induction s as [|c s IH]; simpl; [reflexivity|].
  destruct (is_digit c); [reflexivity | exact IH].
Qed.

Lemma first_digit_has_digit s : has_digit s = false <-> first_digit s = None.
Proof.
  induction s as [|c s IH]; simpl; [tauto|].
  destruct (is_digit c); simpl; [split; discriminate | exact IH].
Qed.

Lemma first_digit_is_digit s c : first_digit s = Some c -> is_digit c = true.
Proof.
  induction s as [|a s IH]; simpl; [discriminate|].
  destruct (is_digit a) eqn:E; [intros [= <-]; exact E | exact IH].
Qed.

Lemma int_one_digit c : is_digit c = true -> int (String c EmptyString) = Return (digit_value c).
Proof.
  intros H. unfold int. simpl. rewrite H. reflexivity.
Qed.

(** What [faq_chunk] computes: the value of the first digit, [IndexError]
    when there is none. *)
Lemma faq_chunk_eq text :
  faq_chunk text =
  match first_digit text with
  | Some c => Return (MkDocument text {[ "faq_no" := MInt (digit_value c) ]})
  | None => Raise index_error
  end.
Proof.
  unfold faq_chunk. pose proof (re_findall_first_digit text) as H.
  destruct (first_digit text) as [c|] eqn:E; simpl in H.
  - destruct (re_findall text) as [|d l]; [discriminate|].
    injection H as ->. rewrite (int_one_digit c (first_digit_is_digit _ _ E)).
    reflexivity.
  - destruct (re_findall text); [reflexivity | discriminate].
Qed.

Lemma faq_chunk_raises text e : faq_chunk text = Raise e -> e = index_error /\ has_digit text = false.
Proof.
  rewrite faq_chunk_eq. destruct (first_digit text) eqn:E; [discriminate|].
  intros [= <-]. split; [reflexivity|]. by apply first_digit_has_digit.
Qed.

Lemma faq_chunk_returns_inv text d : faq_chunk text = Return d -> has_digit text = true.
Proof.
  rewrite faq_chunk_eq. destruct (first_digit text) eqn:E; [|discriminate].
  intros _. destruct (has_digit text) eqn:H; [reflexivity|].
  apply first_digit_has_digit in H. congruence.
Qed.

Lemma faq_chunk_returns text : has_digit text = true -> exists d, faq_chunk text = Return d.
Proof.
  rewrite faq_chunk_eq. intros H. destruct (first_digit text) eqn:E; [eauto|].
  apply first_digit_has_digit in E. congruence.
Qed.

Lemma comprehension_raises {A B} (f : A -> outcome B) l e :
  comprehension f l = Raise e -> exists x, x ∈ l /\ f x = Raise e.
Proof.
  induction l as [|x l IH]; simpl; [discriminate|]. unfold_bind.
  destruct (f x) eqn:E.
  - destruct (comprehension f l) eqn:E'; [discriminate|].
    intros [= <-]. destruct (IH eq_refl) as (y & Hy & Hfy).
    exists y. split; [by right | done].
  - intros [= <-]. exists x. split; [by left | done].
Qed.

Lemma comprehension_returns {A B} (f : A -> outcome B) l :
  (forall x, x ∈ l -> exists y, f x = Return y) -> exists ys, comprehension f l = Return ys.
Proof.
  induction l as [|x l IH]; simpl; intros H; [eauto|]. unfold_bind.
  destruct (H x) as [y ->]; [by left|].
  destruct IH as [ys ->]; [intros z Hz; apply H; by right|]. eauto.
Qed.

Lemma comprehension_elem {A B} (f : A -> outcome B) l ys y :
  comprehension f l = Return ys -> y ∈ ys -> exists x, x ∈ l /\ f x = Return y.
Proof.
  revert ys. induction l as [|x l IH]; simpl; intros ys.
  - intros [= <-] Hy. by apply elem_of_nil in Hy.
  - unfold_bind. destruct (f x) eqn:E; [|discriminate].
    destruct (comprehension f l) eqn:E'; [|discriminate].
    intros [= <-] Hy. apply elem_of_cons in Hy as [->|Hy].
    + exists x. split; [by left | done].
    + destruct (IH _ eq_refl Hy) as (z & Hz & Hfz). exists z. split; [by right | done].
Qed.

Lemma comprehension_all {A B} (f : A -> outcome B) l ys x :
  comprehension f l = Return ys -> x ∈ l -> exists y, f x = Return y.
Proof.
  revert ys. induction l as [|a l IH]; simpl; intros ys H Hx.
  - by apply elem_of_nil in Hx.
  - unfold_bind. destruct (f a) eqn:E; [|discriminate].
    destruct (comprehension f l) eqn:E'; [|discriminate].
    apply elem_of_cons in Hx as [->|Hx]; eauto.
Qed.

Lemma filtered_text_has_digit document text :
  text ∈ filtered_text document ->
  exists segment, segment ∈ split_text document /\ has_digit segment = has_digit text.
Proof.
  unfold filtered_text. intros (segment & -> & H)%list_elem_of_fmap.
  exists segment. split; [done|]. symmetry. apply has_digit_sub_newlines.
Qed.

Lemma split_loop_raises documents acc e :
  split_loop documents acc = Raise e ->
  exists document text,
    document ∈ documents /\ text ∈ filtered_text document /\ faq_chunk text = Raise e.
Proof.
  revert acc. induction documents as [|d ds IH]; simpl; intros acc; [discriminate|].
  unfold_bind. destruct (comprehension faq_chunk (filtered_text d)) eqn:E.
  - intros (d' & t & Hd & Ht & Hf)%IH. exists d', t. split; [by right | done].
  - intros [= <-]. apply comprehension_raises in E as (t & Ht & Hf).
    exists d, t. split; [by left | done].
Qed.

Lemma split_loop_elem documents acc chunks chunk :
  split_loop documents acc = Return chunks -> chunk ∈ chunks ->
  chunk ∈ acc \/
  exists document text,
    document ∈ documents /\ text ∈ filtered_text document /\ faq_chunk text = Return chunk.
Proof.
  revert acc. induction documents as [|d ds IH]; simpl; intros acc.
  - intros [= <-] H. by left.
  - unfold_bind. destruct (comprehension faq_chunk (filtered_text d)) eqn:E; [|discriminate].
    intros H Hc. destruct (IH _ H Hc) as [Hin|(d' & t & Hd & Ht & Hf)].
    + apply elem_of_app in Hin as [Hin|Hin]; [by left|]. right.
      destruct (comprehension_elem _ _ _ _ E Hin) as (t & Ht & Hf).
      exists d, t. split; [by left | done].
    + right. exists d', t. split; [by right | done].
Qed.

Lemma split_loop_returns documents acc :
  (forall document text,
     document ∈ documents -> text ∈ filtered_text document -> has_digit text = true) ->
  exists chunks, split_loop documents acc = Return chunks.
Proof.
  revert acc. induction documents as [|d ds IH]; simpl; intros acc H; [eauto|].
  unfold_bind.
  destruct (comprehension_returns faq_chunk (filtered_text d)) as [ys ->].
  { intros t Ht. apply faq_chunk_returns, (H d); [by left | done]. }
  apply IH. intros d' t Hd. apply H. by right.
Qed.

Lemma split_loop_no_digit documents acc document text :
  document ∈ documents -> text ∈ filtered_text document -> has_digit text = false ->
  split_loop documents acc = Raise index_error.
Proof.
  revert acc. induction documents as [|d ds IH]; simpl; intros acc Hd Ht Hno.
  - by apply elem_of_nil in Hd.
  - unfold_bind. destruct (comprehension faq_chunk (filtered_text d)) eqn:E.
    + apply elem_of_cons in Hd as [->|Hd]; [|by apply IH].
      destruct (comprehension_all _ _ _ _ E Ht) as [y Hy].
      pose proof (faq_chunk_returns_inv text y Hy). congruence.
    + apply comprehension_raises in E as (t & _ & Hf).
      apply faq_chunk_raises in Hf as [-> _]. reflexivity.
Qed.

End FAQ.

(** C9: on the single document ["\n\n1. A\ntext\n\n\n2. B\ntext"] the FAQ
    splitter returns exactly two chunks, in order ["1. A\ntext"] with
    [faq_no] 1 and ["2. B\ntext"] with [faq_no] 2: blank lines are trimmed at
    both ends of each chunk. *)
Theorem faq_split_two_entries :
  SmartFAQSplitter.split_documents [text_doc faq_example]
  = Return [MkDocument ("1. A" ++ nl ++ "text") {[ "faq_no" := MInt 1 ]};
            MkDocument ("2. B" ++ nl ++ "text") {[ "faq_no" := MInt 2 ]}].
Proof. vm_compute. reflexivity. Qed.

(** What the code tags a chunk with: every chunk the splitter returns has
    a first digit, and its metadata is exactly [faq_no] = the value of that
    one digit. *)
Lemma split_documents_faq_no documents chunks chunk :
  SmartFAQSplitter.split_documents documents = Return chunks ->
  chunk ∈ chunks ->
  exists c, first_digit (page_content chunk) = Some c /\
            metadata chunk = {[ "faq_no" := MInt (digit_value c) ]}.
Proof.
  intros H Hc. destruct (split_loop_elem _ _ _ _ H Hc) as [Hnil|(d & t & _ & _ & Hf)].
  - by apply elem_of_nil in Hnil.
  - rewrite faq_chunk_eq in Hf.
    destruct (first_digit t) as [c|] eqn:E; [|discriminate].
    injection Hf as <-. exists c. simpl. done.
Qed.

(** C1 (the code departs from the claim): the entry numbered 12 is tagged
    with [faq_no] 1, the value of its first digit, while the first maximal
    digit sequence of its content denotes 12. *)
Theorem faq_no_of_entry_12 :
  SmartFAQSplitter.split_documents [text_doc "12. Twelfth entry"]
  = Return [MkDocument "12. Twelfth entry" {[ "faq_no" := MInt 1 ]}]
  /\ first_digit_sequence "12. Twelfth entry" = Some 12%Z.
Proof. split; vm_compute; reflexivity. Qed.

(** C10: [split_documents] is partial.  It raises [IndexError] (the
    [[0]] of an empty [re.findall] result) exactly when some split segment
    of some input document contains no digit; and when every segment
    contains a digit it returns a chunk list. *)
Theorem split_documents_partial (documents : list Document) :
  (SmartFAQSplitter.split_documents documents = Raise index_error <->
   exists document segment,
     document ∈ documents /\ segment ∈ SmartFAQSplitter.split_text document /\
     has_digit segment = false)
  /\
  ((forall document segment,
      document ∈ documents -> segment ∈ SmartFAQSplitter.split_text document ->
      has_digit segment = true) ->
   exists chunks, SmartFAQSplitter.split_documents documents = Return chunks).
Proof.
  unfold SmartFAQSplitter.split_documents. split; [split|].
  - intros (d & t & Hd & Ht & Hf)%split_loop_raises.
    apply faq_chunk_raises in Hf as [_ Hno].
    destruct (filtered_text_has_digit _ _ Ht) as (seg & Hseg & Heq).
    exists d, seg. rewrite Heq. done.
  - intros (d & seg & Hd & Hseg & Hno).
    apply (split_loop_no_digit documents [] d (sub_newlines seg)); [done| |].
    + unfold SmartFAQSplitter.filtered_text. by apply list_elem_of_fmap_2.
    + by rewrite has_digit_sub_newlines.
  - intros H. apply split_loop_returns. intros d t Hd Ht.
    destruct (filtered_text_has_digit _ _ Ht) as (seg & Hseg & Heq).
    rewrite <- Heq. by apply (H d).
Qed.

Lemma split_documents_partial_witness :
  (forall document segment,
      document ∈ [text_doc faq_example] ->
      segment ∈ SmartFAQSplitter.split_text document ->
      has_digit segment = true)
  /\ exists chunks, SmartFAQSplitter.split_documents [text_doc faq_example] = Return chunks.
Proof.
  assert (H : forall document segment,
      document ∈ [text_doc faq_example] ->
      segment ∈ SmartFAQSplitter.split_text document ->
      has_digit segment = true).
  { intros d seg ->%list_elem_of_singleton Hs. vm_compute in Hs.
    apply elem_of_cons in Hs as [->|Hs]; [reflexivity|].
    apply list_elem_of_singleton in Hs as ->. reflexivity. }
  split; [exact H|].
  exact (proj2 (split_documents_partial [text_doc faq_example]) H).
Defined.

(** A document without any digit makes the whole call raise. *)
Example split_documents_no_digit :
  SmartFAQSplitter.split_documents [text_doc "1. First"; text_doc "No number here"]
  = Raise index_error.
Proof. vm_compute. reflexivity. Qed.

(** ** [split] and [rsplit] *)

Section Splitting.

Variable sep : ascii.

#[local] Arguments String.append !_ _ / : simpl nomatch.

Lemma contains_app s t : contains sep (s ++ t) = contains sep s || contains sep t.
Proof.
  induction s as [|a s IH]; simpl; [reflexivity|]. rewrite IH. apply orb_assoc.
Qed.

Lemma split_not_nil s : split sep s <> [].
Proof.
  destruct s as [|c s]; simpl; [discriminate|].
  destruct (Ascii.eqb c sep); [discriminate|].
  destruct (split sep s); discriminate.
Qed.

(** [s.split(sep)[0]] is the part of [s] before its first separator. *)
Lemma split_first s :
  exists rest,
    s = at_first (split sep s) ++ rest /\
    contains sep (at_first (split sep s)) = false /\
    (rest = EmptyString \/ exists r, rest = String sep r).
Proof.
  unfold at_first. induction s as [|c s (rest & Hs & Hno & Hrest)]; simpl.
  - exists EmptyString. auto.
  - destruct (Ascii.eqb c sep) eqn:E.
    + apply Ascii.eqb_eq in E as ->. exists (String sep s). simpl. eauto.
    + pose proof (split_not_nil s) as Hnil.
      destruct (split sep s) as [|p ps]; [done|]. simpl in *.
      exists rest. rewrite E, Hno. split; [by rewrite Hs at 1 | auto].
Qed.

(** [s.split(sep)[-1]] is the part of [s] after its last separator. *)
Lemma split_last s :
  exists pre,
    s = pre ++ at_last (split sep s) /\
    contains sep (at_last (split sep s)) = false /\
    ((pre = EmptyString /\ length (split sep s) = 1%nat) \/
     ((exists p, pre = p ++ String sep EmptyString) /\ (2 <= length (split sep s))%nat)).
Proof.
  unfold at_last. induction s as [|c s (pre & Hs & Hno & Hpre)]; simpl.
  - exists EmptyString. auto.
  - pose proof (split_not_nil s) as Hnil. destruct (Ascii.eqb c sep) eqn:E.
    + apply Ascii.eqb_eq in E as ->. exists (String sep pre).
      destruct (split sep s) as [|p ps] eqn:Esplit; [done|].
      change (List.last (EmptyString :: p :: ps) EmptyString)
        with (List.last (p :: ps) EmptyString).
      split; [by rewrite Hs at 1|]. split; [done|]. right.
      split; [|simpl; lia].
      destruct Hpre as [[-> _]|[[q ->] _]]; [by exists EmptyString|].
      by exists (String sep q).
    + destruct (split sep s) as [|p ps] eqn:Esplit; [done|].
      destruct ps as [|p' ps].
      * destruct Hpre as [[-> _]|[_ Hlen]]; [|simpl in Hlen; lia].
        exists EmptyString. simpl in *. rewrite E, Hno. subst s. auto.
      * change (List.last (String c p :: p' :: ps) EmptyString)
          with (List.last (p :: p' :: ps) EmptyString).
        destruct Hpre as [[_ Hlen]|[[q ->] _]]; [simpl in Hlen; lia|].
        exists (String c (q ++ String sep EmptyString)).
        split; [by rewrite Hs at 1|]. split; [done|].
        right. split; [by exists (String c q) | simpl; lia].
Qed.

(** [s.rsplit(sep, 1)]: [[s]] when [s] has no separator, else the parts
    before and after the last one. *)
Lemma rsplit1_spec s :
  (contains sep s = false /\ rsplit1 sep s = [s]) \/
  (exists pre t, rsplit1 sep s = [pre; t] /\ s = pre ++ String sep t /\
                 contains sep t = false).
Proof.
  induction s as [|c s [[Hno Hr]|(pre & t & Hr & Hs & Hno)]]; simpl.
  - left. auto.
  - rewrite Hr. destruct (Ascii.eqb c sep) eqn:E.
    + apply Ascii.eqb_eq in E as ->. right. exists EmptyString, s. auto.
    + left. simpl. auto.
  - rewrite Hr. right. exists (String c pre), t. split; [done|].
    split; [by rewrite Hs at 1 | done].
Qed.

(** The part after the last separator is determined by the string. *)
Lemma last_part_unique pre t pre' t' :
  pre ++ String sep t = pre' ++ String sep t' ->
  contains sep t = false -> contains sep t' = false -> t = t'.
Proof.
  revert pre'. induction pre as [|a pre IH]; intros [|a' pre']; simpl.
  - by intros [= ->].
  - intros [= <- ->] H _. rewrite contains_app in H. simpl in H.
    rewrite Ascii.eqb_refl, orb_true_r in H. discriminate.
  - intros [= -> <-] _ H. rewrite contains_app in H. simpl in H.
    rewrite Ascii.eqb_refl, orb_true_r in H. discriminate.
  - intros [= <- H]. by apply (IH pre').
Qed.

(** [s.rsplit(sep, 1)[-1] == t], for a [t] without separator: [s] is [t]
    or ends with the separator followed by [t]. *)
Lemma rsplit1_last s t :
  contains sep t = false ->
  (at_last (rsplit1 sep s) = t <-> s = t \/ exists pre, s = pre ++ String sep t).
Proof.
  intros Ht. unfold at_last.
  destruct (rsplit1_spec s) as [[Hno ->]|(pre & u & -> & Hs & Hno)]; simpl.
  - split; [auto|]. intros [->|[pre ->]]; [done|].
    rewrite contains_app in Hno. simpl in Hno.
    rewrite Ascii.eqb_refl, orb_true_r in Hno. discriminate.
  - split.
    + intros <-. right. by exists pre.
    + intros [->|[pre' Hs']].
      * rewrite Hs, contains_app in Ht. simpl in Ht.
        rewrite Ascii.eqb_refl, orb_true_r in Ht. discriminate.
      * rewrite Hs in Hs'. by apply (last_part_unique pre u pre' t).
Qed.

End Splitting.

(** ** The clone directory name *)

(** C4 (as amended): the clone directory name is the part of the last
    ["/"]-separated segment of the URL that precedes the segment's first
    period (the whole segment when it has none): the URL is
    [pre ++ name ++ rest], where [pre] is empty or ends with ["/"],
    [name ++ rest] has no ["/"], [name] has no period, and [rest] is empty or
    begins with a period. *)
Theorem repo_name_before_first_dot (data_source : string) :
  exists pre rest,
    data_source = pre ++ repo_name data_source ++ rest /\
    (pre = "" \/ exists p, pre = p ++ "/") /\
    contains "/" (repo_name data_source ++ rest) = false /\
    contains "." (repo_name data_source) = false /\
    (rest = "" \/ exists r, rest = String "." r).
Proof.
  unfold repo_name.
  destruct (split_last "/" data_source) as (pre & Hs & Hno & Hpre).
  destruct (split_first "." (at_last (split "/" data_source))) as (rest & Hseg & Hdot & Hrest).
  exists pre, rest. rewrite <- Hseg. split; [exact Hs|]. split; [|by auto].
  destruct Hpre as [[-> _]|[[p ->] _]]; [by left | right; by exists p].
Qed.

(** The amended statement at the URL of the claim. *)
Example repo_name_repo_name_git :
  repo_name "https://host/user/repo.name.git" = "repo".
Proof. reflexivity. Qed.

(** C4 as stated fails: for ["https://host/user/repo.name.git"] the code
    yields ["repo"], not the segment without its trailing suffix,
    ["repo.name"]. *)
Lemma repo_name_counterexample :
  spec_clone_dir "https://host/user/repo.name.git" = "repo.name" /\
  repo_name "https://host/user/repo.name.git" <> "repo.name" /\
  ~ (forall data_source, repo_name data_source = spec_clone_dir data_source).
Proof.
  split; [reflexivity|]. split; [discriminate|].
  intros H. specialize (H "https://host/user/repo.name.git"). discriminate H.
Qed.

(** ** The remote registry *)

Lemma web_mapping_lookup (k : string) :
  WEB_LOADER_MAPPING !! k =
  if String.eqb k ".git" then Some (AutoGitLoader, [])
  else if String.eqb k ".pdf" then Some (OnlinePDFLoader, [])
  else None.
Proof.
  unfold WEB_LOADER_MAPPING. simpl.
  destruct (String.eqb_spec k ".git") as [->|Hgit]; [by rewrite lookup_insert_eq|].
  rewrite lookup_insert_ne by done.
  destruct (String.eqb_spec k ".pdf") as [->|Hpdf]; [by rewrite lookup_insert_eq|].
  rewrite lookup_insert_ne by done. apply lookup_empty.
Qed.

(** The extension of [file_path] is ["." ++ t] exactly when [file_path] is
    [t] or ends with ["." ++ t] ([t] without period). *)
Lemma ext_of_eq (file_path t : string) :
  contains "." t = false ->
  (ext_of file_path = String "." t <->
   file_path = t \/ exists pre, file_path = pre ++ String "." t).
Proof.
  intros Ht. rewrite <- (rsplit1_last "." file_path t Ht). unfold ext_of.
  change ("." ++ at_last (rsplit1 "." file_path))
    with (String "."%char (at_last (rsplit1 "." file_path))).
  split; [by intros [= ->] | by intros ->].
Qed.

Lemma web_route (data_source : string) :
  startswith "http" data_source = true ->
  (choose_loader data_source WEB_LOADER_MAPPING WebBaseLoader = (AutoGitLoader, []) <->
     exists pre, data_source = pre ++ ".git") /\
  (choose_loader data_source WEB_LOADER_MAPPING WebBaseLoader = (OnlinePDFLoader, []) <->
     exists pre, data_source = pre ++ ".pdf") /\
  (choose_loader data_source WEB_LOADER_MAPPING WebBaseLoader = (WebBaseLoader, []) <->
     ~ (exists pre, data_source = pre ++ ".git") /\
     ~ (exists pre, data_source = pre ++ ".pdf")).
Proof.
  intros Hweb.
  assert (Hgit : ext_of data_source = ".git" <-> exists pre, data_source = pre ++ ".git").
  { rewrite (ext_of_eq data_source "git" eq_refl).
    split; [intros [->|H]; [discriminate Hweb | exact H] | by right]. }
  assert (Hpdf : ext_of data_source = ".pdf" <-> exists pre, data_source = pre ++ ".pdf").
  { rewrite (ext_of_eq data_source "pdf" eq_refl).
    split; [intros [->|H]; [discriminate Hweb | exact H] | by right]. }
  unfold choose_loader. rewrite web_mapping_lookup.
  destruct (String.eqb_spec (ext_of data_source) ".git") as [Eg|Eg].
  - assert (Hnp : ~ exists pre, data_source = pre ++ ".pdf")
      by (intros H%Hpdf; congruence).
    pose proof (proj1 Hgit Eg). intuition congruence.
  - assert (Hng : ~ exists pre, data_source = pre ++ ".git") by (by intros H%Hgit).
    destruct (String.eqb_spec (ext_of data_source) ".pdf") as [Ep|Ep].
    + pose proof (proj1 Hpdf Ep). intuition congruence.
    + assert (Hnp : ~ exists pre, data_source = pre ++ ".pdf") by (by intros H%Hpdf).
      intuition congruence.
Qed.

(** ** The file system operations *)


Lemma set_fs_same w : set_fs (fs w) w = w.
Proof. by destruct w. Qed.

(** [rmtree p] removes everything at or below [p] and nothing else. *)
Lemma lookup_rmtree p q f :
  (rmtree p f).1 !! q = if under p q && isdir p f then None else f !! q.
Proof.
  unfold rmtree, isdir.
  destruct (f !! p) as [[|]|]; [| |destruct (existsb _ _)]; cbn [fst];
    rewrite ?andb_false_r; try reflexivity.
  rewrite andb_true_r. destruct (under p q) eqn:E.
  - apply map_lookup_filter_None. right. intros x _. simpl. by rewrite E.
  - destruct (f !! q) as [x|] eqn:Eq.
    + apply map_lookup_filter_Some. by split.
    + apply map_lookup_filter_None. by left.
Qed.

(** [mkdir p] touches [p] only, and only when nothing is there. *)
Lemma mkdir_lookup_ne p parent f q : q <> p -> (mkdir p parent f).1 !! q = f !! q.
Proof.
  intros Hq. unfold mkdir.
  destruct parent as [d|]; simpl; [destruct (f !! d) as [[|]|]|];
    destruct (f !! p); simpl; try reflexivity; by rewrite lookup_insert_ne.
Qed.

Lemma mkdir_preserves p parent f q n :
  f !! q = Some n -> (mkdir p parent f).1 !! q = Some n.
Proof.
  intros Hq. unfold mkdir.
  destruct parent as [d|]; simpl; [destruct (f !! d) as [[|]|]|];
    destruct (f !! p) eqn:Ep; simpl; try exact Hq;
    (rewrite lookup_insert_ne; [exact Hq | congruence]).
Qed.


(** [os.makedirs] changes nothing but its argument and the directories
    above it, overwrites nothing, and leaves a directory when it returns. *)
Lemma makedirs_up_lookup_ne parents : forall p f q,
  q <> p -> q ∉ parents -> (makedirs_up p parents f).1 !! q = f !! q.
Proof.
  induction parents as [|head above IH]; intros p f q Hp Hq; cbn [makedirs_up].
  - by apply mkdir_lookup_ne.
  - apply not_elem_of_cons in Hq as [Hhead Habove].
    destruct (path_exists head f); [by apply mkdir_lookup_ne|].
    pose proof (IH head f q Hhead Habove) as Hrec.
    destruct (makedirs_up head above f) as [f1 [u|e]]; simpl in Hrec.
    + by rewrite mkdir_lookup_ne.
    + destruct (exn_type e); simpl; try exact Hrec.
      by rewrite mkdir_lookup_ne.
Qed.

Lemma makedirs_up_preserves parents : forall p f q n,
  f !! q = Some n -> (makedirs_up p parents f).1 !! q = Some n.
Proof.
  induction parents as [|head above IH]; intros p f q n Hq; cbn [makedirs_up].
  - by apply mkdir_preserves.
  - destruct (path_exists head f); [by apply mkdir_preserves|].
    pose proof (IH head f q n Hq) as Hrec.
    destruct (makedirs_up head above f) as [f1 [u|e]]; simpl in Hrec.
    + by apply mkdir_preserves.
    + destruct (exn_type e); simpl; try exact Hrec.
      by apply mkdir_preserves.
Qed.


Lemma makedirs_lookup_ne p f q :
  q ∉ p :: ancestors p -> (makedirs p f).1 !! q = f !! q.
Proof.
  intros [Hp Hq]%not_elem_of_cons. unfold makedirs.
  apply makedirs_up_lookup_ne; [exact Hp|]. by rewrite elem_of_reverse.
Qed.

Lemma makedirs_preserves p f q n : f !! q = Some n -> (makedirs p f).1 !! q = Some n.
Proof. apply makedirs_up_preserves. Qed.


(** ** The Git loader *)

Section GitProperties.

Variable DATA_PATH : string.

Variable GitLoader :
  string -> option string -> string -> gmap string node ->
  gmap string node * outcome (list Document).

Abbreviation load := (AutoGitLoader_load DATA_PATH GitLoader).
Abbreviation try_branches := (try_branches GitLoader).

(** What [cleanup] does, by what is at the path. *)
Lemma cleanup_eq path w :
  cleanup path w =
  match fs w !! path with
  | Some Dir => (set_fs (filter (fun kv => under path kv.1 = false) (fs w)) w, Return tt)
  | Some File => (w, Raise not_a_directory_error)
  | None => (w, Return tt)
  end.
Proof.
  unfold cleanup, path_exists, rmtree.
  destruct (fs w !! path) as [[|]|]; try reflexivity. by rewrite set_fs_same.
Qed.

Lemma log_cleanup path w : log (cleanup path w).1 = log w.
Proof. rewrite cleanup_eq. by destruct (fs w !! path) as [[|]|]. Qed.

Lemma git_calls_cleanup path w : git_calls (cleanup path w).1 = git_calls w.
Proof. rewrite cleanup_eq. by destruct (fs w !! path) as [[|]|]. Qed.


(** [cleanup] removes a directory with what lies below it, and nothing else. *)
Lemma lookup_cleanup path q w :
  fs (cleanup path w).1 !! q =
  if under path q && isdir path (fs w) then None else fs w !! q.
Proof.
  rewrite <- lookup_rmtree. unfold cleanup, path_exists, rmtree.
  destruct (fs w !! path) as [[|]|]; [done | done |].
  by destruct (existsb _ _).
Qed.



Lemma log_ensure_data_path w : log (ensure_data_path DATA_PATH w).1 = log w.
Proof.
  unfold ensure_data_path. destruct (path_exists DATA_PATH (fs w)); [done|].
  by destruct (makedirs DATA_PATH (fs w)).
Qed.

Lemma git_calls_ensure_data_path w :
  git_calls (ensure_data_path DATA_PATH w).1 = git_calls w.
Proof.
  unfold ensure_data_path. destruct (path_exists DATA_PATH (fs w)); [done|].
  by destruct (makedirs DATA_PATH (fs w)).
Qed.

Lemma fs_ensure_data_path w :
  fs (ensure_data_path DATA_PATH w).1 =
  if path_exists DATA_PATH (fs w) then fs w else (makedirs DATA_PATH (fs w)).1.
Proof.
  unfold ensure_data_path. destruct (path_exists DATA_PATH (fs w)); [done|].
  by destruct (makedirs DATA_PATH (fs w)).
Qed.

(** Creating the scratch directory overwrites nothing. *)
Lemma lookup_ensure_data_path p n w :
  fs w !! p = Some n -> fs (ensure_data_path DATA_PATH w).1 !! p = Some n.
Proof.
  intros H. rewrite fs_ensure_data_path.
  destruct (path_exists DATA_PATH (fs w)); [exact H|]. by apply makedirs_preserves.
Qed.



(** It changes nothing but the scratch path and the directories above it. *)
Lemma frame_ensure_data_path q w :
  q ∉ DATA_PATH :: ancestors DATA_PATH ->
  fs (ensure_data_path DATA_PATH w).1 !! q = fs w !! q.
Proof.
  intros H. rewrite fs_ensure_data_path.
  destruct (path_exists DATA_PATH (fs w)); [done|]. by apply makedirs_lookup_ne.
Qed.

(** The two attempts of the loop, spelled out. *)
Lemma try_branches_main_master path url w :
  try_branches path url ["main"; "master"] w =
  let a1 := GitLoader path url "main" (fs w) in
  let w1 := record_git_call (path, url, "main") (set_fs a1.1 w) in
  match a1.2 with
  | Return docs => (w1, Some docs)
  | Raise e1 =>
      let w1' := logger (Error_loading_git e1) w1 in
      let a2 := GitLoader path url "master" (fs w1') in
      let w2 := record_git_call (path, url, "master") (set_fs a2.1 w1') in
      match a2.2 with
      | Return docs => (w2, Some docs)
      | Raise e2 => (logger (Error_loading_git e2) w2, None)
      end
  end.
Proof.
  simpl. destruct (GitLoader path url "main" (fs w)) as [f1 [d1|e1]]; simpl; [done|].
  destruct (GitLoader path url "master" f1) as [f2 [d2|e2]]; simpl; done.
Qed.

(** The method, step by step. *)
Lemma AutoGitLoader_load_eq data_source w :
  load data_source w =
  let made := ensure_data_path DATA_PATH w in
  match made.2 with
  | Raise e => (made.1, Raise e)
  | Return _ =>
      let path := repo_path DATA_PATH data_source in
      let tried :=
        try_branches path (clone_url_of DATA_PATH data_source made.1)
          ["main"; "master"] made.1 in
      let removed := cleanup path tried.1 in
      match removed.2 with
      | Raise e => (removed.1, Raise e)
      | Return _ =>
          (removed.1,
           match tried.2 with
           | Some d => Return d
           | None => Raise (MkExn RuntimeError [https_hint])
           end)
      end
  end.
Proof.
  unfold AutoGitLoader_load.
  destruct (ensure_data_path DATA_PATH w) as [w0 [u|e]]; cbn [fst snd]; [|done].
  destruct (try_branches (repo_path DATA_PATH data_source)
              (clone_url_of DATA_PATH data_source w0) ["main"; "master"] w0)
    as [w1 docs]; cbn [fst snd].
  destruct (cleanup _ w1) as [w2 [u'|e']]; cbn [fst snd]; [by destruct docs | done].
Qed.

(** The world the method leaves. *)
Lemma load_world data_source w :
  (load data_source w).1 =
  let made := ensure_data_path DATA_PATH w in
  match made.2 with
  | Raise _ => made.1
  | Return _ =>
      (cleanup (repo_path DATA_PATH data_source)
         (try_branches (repo_path DATA_PATH data_source)
            (clone_url_of DATA_PATH data_source made.1) ["main"; "master"] made.1).1).1
  end.
Proof.
  rewrite AutoGitLoader_load_eq. cbv zeta.
  destruct (ensure_data_path DATA_PATH w).2; [|done].
  by destruct (cleanup _ _).2.
Qed.

(** The calls and the log of the two attempts. *)
Lemma try_branches_traces path url w :
  let a1 := GitLoader path url "main" (fs w) in
  let a2 := GitLoader path url "master" a1.1 in
  let tried := try_branches path url ["main"; "master"] w in
  match a1.2, a2.2 with
  | Return docs, _ =>
      tried.2 = Some docs /\ fs tried.1 = a1.1 /\ log tried.1 = log w /\
      git_calls tried.1 = (git_calls w ++ [(path, url, "main")])%list
  | Raise e1, Return docs =>
      tried.2 = Some docs /\ fs tried.1 = a2.1 /\
      log tried.1 = (log w ++ [Error_loading_git e1])%list /\
      git_calls tried.1 = (git_calls w ++ [(path, url, "main"); (path, url, "master")])%list
  | Raise e1, Raise e2 =>
      tried.2 = None /\ fs tried.1 = a2.1 /\
      log tried.1 = (log w ++ [Error_loading_git e1; Error_loading_git e2])%list /\
      git_calls tried.1 = (git_calls w ++ [(path, url, "main"); (path, url, "master")])%list
  end.
Proof.
  cbv zeta. rewrite try_branches_main_master. cbv zeta.
  destruct (GitLoader path url "main" (fs w)) as [f1 [d1|e1]]; simpl; [done|].
  destruct (GitLoader path url "master" f1) as [f2 [d2|e2]]; simpl;
    by rewrite <- !app_assoc.
Qed.



End GitProperties.

(** A repository whose only branch is [master], cloned into an empty
    scratch directory: the failure on ["main"] is logged, the documents come
    from ["master"], and the clone is gone afterwards. *)
Example legacy_branch_fallback :
  let r := AutoGitLoader_load Scenario.DATA_PATH Scenario.GitLoader
             "https://github.com/user/legacy.git" Scenario.fresh in
  r.2 = Return Scenario.repo_docs /\
  log r.1 = [Error_loading_git Scenario.no_branch] /\
  git_calls r.1 =
    [("/data/legacy", Some "https://github.com/user/legacy.git", "main");
     ("/data/legacy", Some "https://github.com/user/legacy.git", "master")] /\
  path_exists "/data/legacy" (fs r.1) = false /\
  path_exists "/data" (fs r.1) = true.
Proof. vm_compute. repeat split. Qed.

Example unreachable_remote :
  let r := AutoGitLoader_load Scenario.DATA_PATH Scenario.GitLoader_unreachable
             "git@github.com:user/repo.git" Scenario.fresh in
  r.2 = Raise (MkExn RuntimeError [https_hint]) /\ length (log r.1) = 2%nat.
Proof. vm_compute. repeat split. Qed.




(** ** Dispatch and the directory walk *)

Section DispatchProperties.

Variable DATA_PATH : string.

Variable GitLoader :
  string -> option string -> string -> gmap string node ->
  gmap string node * outcome (list Document).

Variable library_loader :
  loader_class -> loader_args -> string -> gmap string node ->
  gmap string node * outcome (list Document).

Variable rglob : string -> gmap string node -> list string.

Abbreviation git_load := (AutoGitLoader_load DATA_PATH GitLoader).
Abbreviation run := (run_loader DATA_PATH GitLoader library_loader).
Abbreviation load_doc := (load_document DATA_PATH GitLoader library_loader).
Abbreviation walk_files := (walk DATA_PATH GitLoader library_loader).
Abbreviation load_dir := (load_directory DATA_PATH GitLoader library_loader rglob).
Abbreviation dispatch_source := (dispatch DATA_PATH GitLoader library_loader rglob).
Abbreviation load_source := (load_data_source DATA_PATH GitLoader library_loader rglob).

Lemma log_extends_refl w : log_extends w w.
Proof. exists []. by rewrite app_nil_r. Qed.

Lemma log_extends_trans w1 w2 w3 : log_extends w1 w2 -> log_extends w2 w3 -> log_extends w1 w3.
Proof.
  intros [l1 H1] [l2 H2]. exists (l1 ++ l2)%list. by rewrite H2, H1, app_assoc.
Qed.

Lemma log_extends_git data_source w : log_extends w (git_load data_source w).1.
Proof.
  unfold log_extends. rewrite load_world. cbv zeta.
  pose proof (log_ensure_data_path DATA_PATH w) as Hlog.
  destruct (ensure_data_path DATA_PATH w) as [w0 [u|e]]; cbn [fst snd] in *;
    [|exists []; by rewrite app_nil_r].
  rewrite log_cleanup, <- Hlog.
  pose proof (try_branches_traces GitLoader (repo_path DATA_PATH data_source)
                (clone_url_of DATA_PATH data_source w0) w0) as Ht.
  cbv zeta in Ht.
  destruct (GitLoader _ _ "main" (fs w0)) as [f1 [d1|e1]]; cbn [fst snd] in Ht.
  - destruct Ht as (_ & _ & -> & _). exists []. by rewrite app_nil_r.
  - destruct (GitLoader _ _ "master" f1) as [f2 [d2|e2]]; cbn [fst snd] in Ht;
      destruct Ht as (_ & _ & -> & _); eauto.
Qed.

Lemma log_extends_run loader file_path w : log_extends w (run loader file_path w).1.
Proof.
  unfold run_loader.
  destruct loader.1;
    try (destruct (library_loader _ _ _ _); exists []; simpl; by rewrite app_nil_r).
  apply log_extends_git.
Qed.

Lemma log_extends_walk silent files results w :
  log_extends w (walk_files silent files results w).1.
Proof.
  revert results w. induction files as [|file rest IH]; cbn [walk]; intros results w.
  - apply log_extends_refl.
  - pose proof (log_extends_run
                  (choose_loader file FILE_LOADER_MAPPING UnstructuredFileLoader) file w) as H.
    unfold load_document.
    destruct (run _ file w) as [w1 [docs|e]]; simpl in H.
    + eapply log_extends_trans; [exact H|].
      eapply log_extends_trans; [|apply IH]. exists []. simpl. by rewrite app_nil_r.
    + destruct silent; [|exact H].
      eapply log_extends_trans; [exact H|].
      eapply log_extends_trans; [|apply IH]. simpl. by eexists.
Qed.

(** The walk over a concatenation: the second part runs on what the first
    returns, unless the first raises. *)
Lemma walk_app silent l1 l2 results w :
  walk_files silent (l1 ++ l2) results w =
  match walk_files silent l1 results w with
  | (w1, Return r1) => walk_files silent l2 r1 w1
  | (w1, Raise e) => (w1, Raise e)
  end.
Proof.
  revert results w. induction l1 as [|file rest IH]; cbn [walk app];
    intros results w; [by destruct (walk_files silent l2 results w) as [? [?|?]]|].
  destruct (load_doc file FILE_LOADER_MAPPING UnstructuredFileLoader w) as [w1 [docs|e]].
  - apply IH.
  - destruct silent; [apply IH | done].
Qed.

(** With [silent_errors] the walk returns, and what it returns extends the
    documents gathered so far. *)
Lemma walk_silent_returns files results w :
  exists w' docs, walk_files true files results w = (w', Return (results ++ docs)%list).
Proof.
  revert results w. induction files as [|file rest IH]; cbn [walk]; intros results w.
  - exists w, []. by rewrite app_nil_r.
  - destruct (load_doc file FILE_LOADER_MAPPING UnstructuredFileLoader w) as [w1 [docs|e]].
    + destruct (IH (results ++ docs)%list (pbar_update w1)) as (w' & more & ->).
      exists w', (docs ++ more)%list. by rewrite app_assoc.
    + apply IH.
Qed.

(** C7: the failure policy of the directory walk.  Let [file] be a file of
    the enumeration whose extraction raises, after the files [before] it have
    been walked.  With [silent_errors] (the default) the walk goes on over
    the remaining files with the documents gathered so far unchanged (the
    file contributes none), it returns, and the failure is in the log.
    Without it the walk stops there and the exception of [file] reaches the
    caller. *)
Theorem load_directory_failure_policy
    (path : string) (silent_errors : bool) (w : World)
    (before after : list string) (file : string)
    (w1 w2 : World) (loaded : list Document) (e : exn) :
  rglob path (fs w) = (before ++ file :: after)%list ->
  walk_files silent_errors before [] w = (w1, Return loaded) ->
  load_doc file FILE_LOADER_MAPPING UnstructuredFileLoader w1 = (w2, Raise e) ->
  if silent_errors
  then
    load_directory_default DATA_PATH GitLoader library_loader rglob path w =
      load_dir path true w /\
    load_dir path true w =
      walk_files true after loaded (pbar_update (logger (Error_failed_to_load file) w2)) /\
    exists w' docs,
      load_dir path true w = (w', Return (loaded ++ docs)%list) /\
      Error_failed_to_load file ∈ log w'
  else load_dir path false w = (w2, Raise e).
Proof.
  intros Hfiles Hbefore Hfile. unfold load_directory_default, load_directory.
  destruct silent_errors; rewrite Hfiles, walk_app, Hbefore; cbn [walk]; rewrite Hfile;
    [|done].
  split; [done|]. split; [done|].
  set (w3 := pbar_update (logger (Error_failed_to_load file) w2)).
  destruct (walk_silent_returns after loaded w3) as (w' & docs & Hwalk).
  exists w', docs. split; [done|].
  pose proof (log_extends_walk true after loaded w3) as [l Hl].
  rewrite Hwalk in Hl. simpl in Hl. rewrite Hl.
  apply elem_of_app. left. apply elem_of_app. right. by apply list_elem_of_singleton.
Qed.

(** C8: [load_data_source] tests, in this order: existing directory (the
    directory walk, silent), existing file (the local registry), the
    ["http"] prefix (the remote registry); a source that is none of them
    raises [TypeError].  A failure of the chosen step is logged and re-raised
    with the message naming the source. *)
Theorem load_data_source_classification (data_source : string) (w : World) :
  (isdir data_source (fs w) = true ->
   load_source data_source w = reraise data_source (load_dir data_source true w))
  /\
  (isdir data_source (fs w) = false -> isfile data_source (fs w) = true ->
   load_source data_source w =
   reraise data_source (load_doc data_source FILE_LOADER_MAPPING UnstructuredFileLoader w))
  /\
  (isdir data_source (fs w) = false -> isfile data_source (fs w) = false ->
   startswith "http" data_source = true ->
   load_source data_source w =
   reraise data_source (load_doc data_source WEB_LOADER_MAPPING WebBaseLoader w))
  /\
  (isdir data_source (fs w) = false -> isfile data_source (fs w) = false ->
   startswith "http" data_source = false ->
   load_source data_source w =
   (logger (Error_message (error_msg data_source)) w,
    Raise (MkExn TypeError [error_msg data_source]))).
Proof.
  unfold load_data_source, dispatch, load_directory_default.
  repeat split; intros; repeat match goal with H : _ = _ |- _ => rewrite H end; done.
Qed.

(** C5 (as amended): a source that is neither an existing directory nor an
    existing file and begins with ["http"] is loaded by the loader the remote
    registry gives for its extension: [AutoGitLoader] exactly when the
    source ends with [".git"], [OnlinePDFLoader] exactly when it ends with
    [".pdf"], [WebBaseLoader] exactly when it ends with neither.  The host
    of the URL plays no part. *)
Theorem web_source_routing (data_source : string) (w : World) :
  isdir data_source (fs w) = false ->
  isfile data_source (fs w) = false ->
  startswith "http" data_source = true ->
  dispatch_source data_source w =
    run (choose_loader data_source WEB_LOADER_MAPPING WebBaseLoader) data_source w
  /\ (choose_loader data_source WEB_LOADER_MAPPING WebBaseLoader = (AutoGitLoader, []) <->
      exists pre, data_source = pre ++ ".git")
  /\ (choose_loader data_source WEB_LOADER_MAPPING WebBaseLoader = (OnlinePDFLoader, []) <->
      exists pre, data_source = pre ++ ".pdf")
  /\ (choose_loader data_source WEB_LOADER_MAPPING WebBaseLoader = (WebBaseLoader, []) <->
      ~ (exists pre, data_source = pre ++ ".git") /\
      ~ (exists pre, data_source = pre ++ ".pdf"))
  /\ ((exists pre, data_source = pre ++ ".git") ->
      dispatch_source data_source w = git_load data_source w).
Proof.
  intros Hdir Hfile Hweb.
  destruct (web_route data_source Hweb) as (Hgit & Hpdf & Hother).
  assert (Hd : dispatch_source data_source w =
               run (choose_loader data_source WEB_LOADER_MAPPING WebBaseLoader) data_source w).
  { unfold dispatch. by rewrite Hdir, Hfile, Hweb. }
  split; [exact Hd|]. split; [exact Hgit|]. split; [exact Hpdf|]. split; [exact Hother|].
  intros Hends. rewrite Hd. apply Hgit in Hends. by rewrite Hends.
Qed.

End DispatchProperties.

(** *** The examples of the specification, on the concrete collaborators *)

Module Examples.

Import Scenario.

Abbreviation load_directory := (load_directory DATA_PATH GitLoader library_loader rglob).
Abbreviation load_document := (load_document DATA_PATH GitLoader library_loader).
Abbreviation walk := (walk DATA_PATH GitLoader library_loader).
Abbreviation dispatch := (dispatch DATA_PATH GitLoader library_loader rglob).
Abbreviation load_data_source := (load_data_source DATA_PATH GitLoader library_loader rglob).

(** A directory with one valid [.txt] file and one corrupt [.pdf] file:
    silently, the walk returns the documents of the [.txt] file and logs one
    error; otherwise it raises. *)
Example corrupt_pdf_silent :
  (load_directory "corpus" true world).2 = Return notes /\
  log (load_directory "corpus" true world).1 = [Error_failed_to_load "corpus/broken.pdf"] /\
  pbar (load_directory "corpus" true world).1 = 2%nat.
Proof. vm_compute. repeat split. Qed.

Example corrupt_pdf_loud :
  (load_directory "corpus" false world).2 = Raise corrupt /\
  log (load_directory "corpus" false world).1 = [].
Proof. vm_compute. repeat split. Qed.

Lemma load_directory_failure_policy_witness :
  (rglob "corpus" (fs world) = (["corpus/notes.txt"] ++ "corpus/broken.pdf" :: [])%list /\
   walk true ["corpus/notes.txt"] [] world = (pbar_update world, Return notes) /\
   walk false ["corpus/notes.txt"] [] world = (pbar_update world, Return notes) /\
   load_document "corpus/broken.pdf" FILE_LOADER_MAPPING UnstructuredFileLoader
     (pbar_update world) = (pbar_update world, Raise corrupt))
  /\
  (exists w' docs,
     load_directory "corpus" true world = (w', Return (notes ++ docs)%list) /\
     Error_failed_to_load "corpus/broken.pdf" ∈ log w')
  /\
  load_directory "corpus" false world = (pbar_update world, Raise corrupt).
Proof.
  assert (Hfiles : rglob "corpus" (fs world)
                   = (["corpus/notes.txt"] ++ "corpus/broken.pdf" :: [])%list)
    by reflexivity.
  assert (Hsilent : walk true ["corpus/notes.txt"] [] world = (pbar_update world, Return notes))
    by (vm_compute; reflexivity).
  assert (Hloud : walk false ["corpus/notes.txt"] [] world = (pbar_update world, Return notes))
    by (vm_compute; reflexivity).
  assert (Hpdf : load_document "corpus/broken.pdf" FILE_LOADER_MAPPING UnstructuredFileLoader
                   (pbar_update world) = (pbar_update world, Raise corrupt))
    by (vm_compute; reflexivity).
  split; [exact (conj Hfiles (conj Hsilent (conj Hloud Hpdf)))|]. split.
  - exact (proj2 (proj2 (load_directory_failure_policy DATA_PATH GitLoader library_loader rglob
                    "corpus" true world ["corpus/notes.txt"] [] "corpus/broken.pdf"
                    (pbar_update world) (pbar_update world) notes corrupt
                    Hfiles Hsilent Hpdf))).
  - exact (load_directory_failure_policy DATA_PATH GitLoader library_loader rglob
             "corpus" false world ["corpus/notes.txt"] [] "corpus/broken.pdf"
             (pbar_update world) (pbar_update world) notes corrupt
             Hfiles Hloud Hpdf).
Defined.

(** A directory, a file whose name begins with ["http"], a URL, and a
    string that is none of them. *)
Lemma load_data_source_classification_witness :
  (isdir "corpus" (fs world) = true /\
   load_data_source "corpus" world = reraise "corpus" (load_directory "corpus" true world))
  /\
  (isdir "http_notes.txt" (fs world) = false /\ isfile "http_notes.txt" (fs world) = true /\
   startswith "http" "http_notes.txt" = true /\
   load_data_source "http_notes.txt" world =
   reraise "http_notes.txt"
     (load_document "http_notes.txt" FILE_LOADER_MAPPING UnstructuredFileLoader world))
  /\
  (isdir "https://example.com/page" (fs world) = false /\
   isfile "https://example.com/page" (fs world) = false /\
   startswith "http" "https://example.com/page" = true /\
   load_data_source "https://example.com/page" world =
   reraise "https://example.com/page"
     (load_document "https://example.com/page" WEB_LOADER_MAPPING WebBaseLoader world))
  /\
  (isdir "ftp://example.com/page" (fs world) = false /\
   isfile "ftp://example.com/page" (fs world) = false /\
   startswith "http" "ftp://example.com/page" = false /\
   load_data_source "ftp://example.com/page" world =
   (logger (Error_message (error_msg "ftp://example.com/page")) world,
    Raise (MkExn TypeError [error_msg "ftp://example.com/page"]))).
Proof.
  split; [|split; [|split]].
  - split; [reflexivity|].
    exact (proj1 (load_data_source_classification DATA_PATH GitLoader library_loader rglob
                    "corpus" world) eq_refl).
  - split; [reflexivity|]. split; [reflexivity|]. split; [reflexivity|].
    exact (proj1 (proj2 (load_data_source_classification DATA_PATH GitLoader library_loader
                           rglob "http_notes.txt" world)) eq_refl eq_refl).
  - split; [reflexivity|]. split; [reflexivity|]. split; [reflexivity|].
    exact (proj1 (proj2 (proj2 (load_data_source_classification DATA_PATH GitLoader
                                  library_loader rglob "https://example.com/page" world)))
             eq_refl eq_refl eq_refl).
  - split; [reflexivity|]. split; [reflexivity|]. split; [reflexivity|].
    exact (proj2 (proj2 (proj2 (load_data_source_classification DATA_PATH GitLoader
                                  library_loader rglob "ftp://example.com/page" world)))
             eq_refl eq_refl eq_refl).
Defined.

Example invalid_source :
  (load_data_source "ftp://example.com/page" world).2
  = Raise (MkExn TypeError ["Failed to load your data source 'ftp://example.com/page'."]).
Proof. vm_compute. reflexivity. Qed.

Lemma web_source_routing_witness :
  isdir "https://github.com/user/legacy.git" (fs fresh) = false /\
  isfile "https://github.com/user/legacy.git" (fs fresh) = false /\
  startswith "http" "https://github.com/user/legacy.git" = true /\
  dispatch "https://github.com/user/legacy.git" fresh =
  AutoGitLoader_load DATA_PATH GitLoader "https://github.com/user/legacy.git" fresh.
Proof.
  split; [reflexivity|]. split; [reflexivity|]. split; [reflexivity|].
  destruct (web_source_routing DATA_PATH GitLoader library_loader rglob
              "https://github.com/user/legacy.git" fresh eq_refl eq_refl eq_refl)
    as (_ & _ & _ & _ & Hgit).
  apply Hgit. by exists "https://github.com/user/legacy".
Defined.

(** C5 as stated fails twice.  A URL that ends with [".pdf"] goes to
    [OnlinePDFLoader], which is neither the Git loader nor the generic web
    loader; and a URL on a repository host that does not end with [".git"]
    goes to the generic web loader. *)
Lemma web_source_routing_counterexample :
  (isdir "https://example.com/paper.pdf" (fs fresh) = false /\
   isfile "https://example.com/paper.pdf" (fs fresh) = false /\
   startswith "http" "https://example.com/paper.pdf" = true /\
   choose_loader "https://example.com/paper.pdf" WEB_LOADER_MAPPING WebBaseLoader
   = (OnlinePDFLoader, []))
  /\
  (isdir "https://github.com/user/repo" (fs fresh) = false /\
   isfile "https://github.com/user/repo" (fs fresh) = false /\
   startswith "http" "https://github.com/user/repo" = true /\
   choose_loader "https://github.com/user/repo" WEB_LOADER_MAPPING WebBaseLoader
   = (WebBaseLoader, [])).
Proof. vm_compute. repeat split. Qed.

End Examples.

(** ** The chunk overlap *)

Section Overlap.

Import PyFloat.

Local Open Scope Z_scope.

(** [rne_div n d] is within one half of [n / d]. *)
Lemma rne_div_half (n d : Z) :
  0 <= n -> 0 < d ->
  2 * n - d <= 2 * d * rne_div n d <= 2 * n + d.
Proof.
  intros Hn Hd. unfold rne_div.
  pose proof (Z.div_mod n d ltac:(lia)) as Hdiv.
  pose proof (Z.mod_pos_bound n d Hd) as Hmod.
  destruct (2 * (n mod d) <? d) eqn:E1; [apply Z.ltb_lt in E1; nia|].
  apply Z.ltb_ge in E1.
  destruct (d <? 2 * (n mod d)) eqn:E2; [apply Z.ltb_lt in E2; nia|].
  apply Z.ltb_ge in E2.
  destruct (Z.even (n / d)); nia.
Qed.

(** Scaled by [p >= 64] and rounded, then truncated back: the exact
    quotient by 100. *)
Lemma round_scaled_100 (n p m : Z) :
  0 <= n -> 64 <= p ->
  2 * (n * p) - 100 <= 2 * 100 * m <= 2 * (n * p) + 100 ->
  m / p = n / 100.
Proof.
  intros Hn Hp Hm.
  pose proof (Z.div_mod n 100 ltac:(lia)) as Hdiv.
  pose proof (Z.mod_pos_bound n 100 ltac:(lia)) as Hmod.
  set (q := n / 100) in *. set (r := n mod 100) in *.
  assert (Hnp : n * p = 100 * (q * p) + r * p) by (rewrite Hdiv; ring).
  assert (Hrp : 0 <= r * p <= 99 * p) by nia.
  symmetry. apply Z.div_unique with (r := m - p * q); lia.
Qed.

Lemma truediv_pos (n : Z) :
  0 < n ->
  truediv n 100 =
  if too_large (round53 n 100) then Raise overflow else Return (round53 n 100).
Proof.
  intros Hn. unfold truediv.
  destruct (Z.eqb_spec n 0) as [->|_]; [lia|]. simpl (100 =? 0).
  cbv iota. rewrite (Z.abs_eq n) by lia. change (Z.abs 100) with 100.
  rewrite (Z.sgn_pos n) by lia. change (Z.sgn 100) with 1.
  destruct (too_large (round53 n 100)); [reflexivity|].
  destruct (round53 n 100) as [m e]. simpl. f_equal. f_equal. lia.
Qed.

Lemma quotient_exponent_le (n d : Z) : quotient_exponent n d <= Z.log2 n - Z.log2 d.
Proof.
  unfold quotient_exponent.
  destruct (if 0 <=? Z.log2 n - Z.log2 d then _ else _); lia.
Qed.

(** The exponent found for [n / d] is not too high: [d * 2 ^ k <= n]. *)
Lemma quotient_exponent_lower (n d : Z) :
  0 < n -> 0 < d -> 0 <= quotient_exponent n d ->
  d * 2 ^ quotient_exponent n d <= n.
Proof.
  intros Hn Hd. unfold quotient_exponent.
  set (k := Z.log2 n - Z.log2 d).
  destruct (Z.log2_spec n Hn) as [Hn1 _]. destruct (Z.log2_spec d Hd) as [_ Hd2].
  pose proof (Z.log2_nonneg n). pose proof (Z.log2_nonneg d).
  destruct (0 <=? k) eqn:Ek.
  - apply Z.leb_le in Ek. destruct (d * 2 ^ k <=? n) eqn:E; [intros _; by apply Z.leb_le|].
    intros Hk. assert (Hpow : 2 ^ Z.log2 n = 2 ^ Z.succ (Z.log2 d) * 2 ^ (k - 1)).
    { rewrite <- Z.pow_add_r by lia. f_equal. lia. }
    assert (0 < 2 ^ (k - 1)) by (apply Z.pow_pos_nonneg; lia). nia.
  - apply Z.leb_gt in Ek. destruct (d <=? n * 2 ^ (- k)); lia.
Qed.

(** Below [2 ^ 53] the quotient by 100 keeps at least six binary places. *)
Lemma round53_expo_small (n : Z) :
  0 < n -> n < 2 ^ 53 -> -1074 <= expo (round53 n 100) <= -6.
Proof.
  intros Hn Hlt. unfold round53. cbv zeta. simpl expo.
  pose proof (quotient_exponent_le n 100) as Hle.
  change (Z.log2 100) with 6 in Hle.
  assert (Z.log2 n < 53) by (apply Z.log2_lt_pow2; lia). lia.
Qed.

(** What [int] makes of the rounded quotient, by the sign of the exponent. *)
Lemma round53_scaled (n : Z) :
  0 < n ->
  let f := round53 n 100 in
  (expo f < 0 ->
   2 * (n * 2 ^ (- expo f)) - 100 <= 2 * 100 * mant f <= 2 * (n * 2 ^ (- expo f)) + 100) /\
  (0 <= expo f ->
   2 * n - 100 * 2 ^ expo f <= 2 * (100 * 2 ^ expo f) * mant f
     <= 2 * n + 100 * 2 ^ expo f).
Proof.
  intros Hn. unfold round53. cbv zeta. simpl expo. simpl mant.
  set (e := Z.max (quotient_exponent n 100 - 52) (-1074)).
  split; intros He.
  - destruct (Z.leb_spec 0 e); [lia|].
    assert (0 < 2 ^ (- e)) by (apply Z.pow_pos_nonneg; lia).
    apply rne_div_half; nia.
  - destruct (Z.leb_spec 0 e); [|lia].
    assert (0 < 2 ^ e) by (apply Z.pow_pos_nonneg; lia).
    apply rne_div_half; nia.
Qed.

Lemma chunk_overlap_pos (cs pct : Z) :
  0 < cs * pct ->
  chunk_overlap (MkOptions cs pct) =
  if too_large (round53 (cs * pct) 100) then Raise overflow
  else Return (int_of_float (round53 (cs * pct) 100)).
Proof.
  intros Hn. unfold chunk_overlap. simpl chunk_size. simpl chunk_overlap_pct.
  rewrite (truediv_pos _ Hn). by destruct (too_large _).
Qed.

Lemma chunk_overlap_zero (cs : Z) : chunk_overlap (MkOptions cs 0) = Return 0.
Proof.
  unfold chunk_overlap. simpl chunk_size. simpl chunk_overlap_pct.
  by rewrite Z.mul_0_r.
Qed.

(** With at least six binary places, [int] of the rounded quotient is the
    exact quotient. *)
Lemma int_of_round53_exact (n : Z) :
  0 < n -> expo (round53 n 100) <= -6 ->
  too_large (round53 n 100) = false /\ int_of_float (round53 n 100) = n / 100.
Proof.
  intros Hn He. destruct (round53_scaled n Hn) as [Hneg _].
  specialize (Hneg ltac:(lia)). unfold too_large, int_of_float.
  set (e := expo (round53 n 100)) in *. set (m := mant (round53 n 100)) in *.
  assert (Hp : 64 <= 2 ^ (- e)).
  { change 64 with (2 ^ 6). apply Z.pow_le_mono_r; lia. }
  split.
  - destruct (Z.ltb_spec 971 e); [lia|]. destruct (Z.eqb_spec e 971); [lia|]. reflexivity.
  - destruct (Z.leb_spec 0 e); [lia|].
    assert (0 <= m) by nia.
    rewrite Z.quot_div_nonneg by lia.
    apply round_scaled_100; lia.
Qed.

(** Whatever the size, [int] of the rounded quotient stays below [cs]. *)
Lemma int_of_round53_bound (cs pct : Z) :
  0 < cs -> 0 < pct < 100 ->
  0 <= int_of_float (round53 (cs * pct) 100) < cs.
Proof.
  intros Hcs Hpct. set (n := cs * pct).
  assert (Hn : 0 < n) by nia. assert (Hn99 : n <= 99 * cs) by nia.
  destruct (Z.le_gt_cases (expo (round53 n 100)) (-6)) as [He|He].
  - destruct (int_of_round53_exact n Hn He) as [_ ->].
    split; [apply Z.div_pos; lia | apply Z.div_lt_upper_bound; lia].
  - destruct (round53_scaled n Hn) as [Hneg Hpos].
    assert (Hq : expo (round53 n 100) = quotient_exponent n 100 - 52).
    { revert He. unfold round53. cbv zeta. simpl expo. lia. }
    pose proof (quotient_exponent_lower n 100 Hn ltac:(lia) ltac:(lia)) as Hlow.
    unfold int_of_float.
    set (e := expo (round53 n 100)) in *. set (m := mant (round53 n 100)) in *.
    replace (quotient_exponent n 100) with (e + 52) in Hlow by lia.
    destruct (Z.leb_spec 0 e) as [He0|He0].
    + specialize (Hpos He0). rewrite Z.pow_add_r in Hlow by lia.
      assert (0 < 2 ^ e) by (apply Z.pow_pos_nonneg; lia).
      change (2 ^ 52) with 4503599627370496 in Hlow.
      set (P := 2 ^ e) in *. nia.
    + specialize (Hneg He0).
      assert (Hp : 0 < 2 ^ (- e)) by (apply Z.pow_pos_nonneg; lia).
      assert (Hbig : 100 * 2 ^ 47 <= n).
      { etransitivity; [|exact Hlow]. apply Z.mul_le_mono_nonneg_l; [lia|].
        apply Z.pow_le_mono_r; lia. }
      change (2 ^ 47) with 140737488355328 in Hbig.
      set (p := 2 ^ (- e)) in *.
      assert (Hm : 0 <= m) by nia.
      rewrite Z.quot_div_nonneg by lia.
      pose proof (Z.mul_div_le m p Hp) as Hv.
      assert (0 <= m / p) by (apply Z.div_pos; lia).
      split; [lia|]. set (v := m / p) in *. nia.
Qed.

(** Quotients below [2 ^ 1023] are finite floats. *)
Lemma round53_finite (n : Z) :
  0 < n -> n < 100 * 2 ^ 1023 -> too_large (round53 n 100) = false.
Proof.
  intros Hn Hlt. destruct (round53_scaled n Hn) as [_ Hpos].
  assert (He : expo (round53 n 100) <= 971).
  { unfold round53. cbv zeta. simpl expo.
    pose proof (quotient_exponent_le n 100) as Hle. change (Z.log2 100) with 6 in Hle.
    assert (Z.log2 n < 1030); [|lia].
    apply Z.log2_lt_pow2; [lia|].
    replace (2 ^ 1030) with (128 * 2 ^ 1023) by (vm_compute; reflexivity).
    assert (0 < 2 ^ 1023) by (apply Z.pow_pos_nonneg; lia). lia. }
  unfold too_large.
  set (e := expo (round53 n 100)) in *. set (m := mant (round53 n 100)) in *.
  destruct (Z.ltb_spec 971 e); [lia|]. simpl.
  destruct (Z.eqb_spec e 971) as [E|_]; [|reflexivity]. simpl.
  destruct (Z.leb_spec (2 ^ 53) m) as [Hm|_]; [|reflexivity]. exfalso.
  specialize (Hpos ltac:(lia)). rewrite E in Hpos.
  replace (2 ^ 1023) with (2 ^ 52 * 2 ^ 971) in Hlt by (vm_compute; reflexivity).
  assert (0 < 2 ^ 971) by (apply Z.pow_pos_nonneg; lia).
  change (2 ^ 53) with 9007199254740992 in Hm.
  change (2 ^ 52) with 4503599627370496 in Hlt.
  set (P := 2 ^ 971) in *. nia.
Qed.

(** C6 (as amended): for [chunk_size > 0] and [chunk_overlap_pct] in
    [[0, 100)], the overlap is the float quotient
    [chunk_size * chunk_overlap_pct / 100] truncated by [int].  It is the
    exact quotient truncated whenever the product is below [2 ^ 53]; the
    computation returns whenever the product is below [100 * 2 ^ 1023]; and
    an overlap it returns is never negative and always strictly less than
    [chunk_size]. *)
Theorem chunk_overlap_spec (cs pct : Z) :
  0 < cs -> 0 <= pct < 100 ->
  (cs * pct < 2 ^ 53 -> chunk_overlap (MkOptions cs pct) = Return (cs * pct / 100))
  /\ (cs * pct < 100 * 2 ^ 1023 -> exists v, chunk_overlap (MkOptions cs pct) = Return v)
  /\ (forall v, chunk_overlap (MkOptions cs pct) = Return v -> 0 <= v < cs).
Proof.
  intros Hcs Hpct. destruct (Z.eq_dec pct 0) as [->|Hne].
  - rewrite chunk_overlap_zero, Z.mul_0_r. change (0 / 100) with 0.
    split; [done|]. split; [eauto|]. intros v [= <-]. lia.
  - assert (Hn : 0 < cs * pct) by nia. rewrite (chunk_overlap_pos _ _ Hn).
    split; [|split].
    + intros Hsmall. pose proof (round53_expo_small _ Hn Hsmall) as He.
      destruct (int_of_round53_exact _ Hn ltac:(lia)) as [-> ->]. reflexivity.
    + intros Hfin. rewrite (round53_finite _ Hn Hfin). eauto.
    + intros v. destruct (too_large _); [discriminate|]. intros [= <-].
      apply int_of_round53_bound; lia.
Qed.

End Overlap.

Lemma chunk_overlap_spec_witness :
  (0 < 1000 /\ 0 <= 20 < 100 /\ 1000 * 20 < 2 ^ 53)%Z /\
  chunk_overlap (MkOptions 1000 20) = Return 200%Z.
Proof.
  assert (H1 : (0 < 1000)%Z) by lia.
  assert (H2 : (0 <= 20 < 100)%Z) by lia.
  assert (H3 : (1000 * 20 < 2 ^ 53)%Z) by (vm_compute; reflexivity).
  split; [exact (conj H1 (conj H2 H3))|].
  exact (proj1 (chunk_overlap_spec 1000 20 H1 H2) H3).
Defined.

(** C6 as stated fails for a chunk size that a float cannot hold exactly:
    with [chunk_size = 2 ^ 60 + 1] and 1 percent, the code computes
    11529215046068470, the exact quotient truncated is 11529215046068469. *)
Lemma chunk_overlap_counterexample :
  (0 < 2 ^ 60 + 1)%Z /\ (0 <= 1 < 100)%Z /\
  chunk_overlap (MkOptions (2 ^ 60 + 1) 1) = Return 11529215046068470%Z /\
  ((2 ^ 60 + 1) * 1 / 100 = 11529215046068469)%Z /\
  chunk_overlap (MkOptions (2 ^ 60 + 1) 1) <> Return ((2 ^ 60 + 1) * 1 / 100)%Z.
Proof.
  split; [reflexivity|]. split; [lia|]. split; [vm_compute; reflexivity|].
  split; [reflexivity|]. vm_compute. discriminate.
Qed.

(** Beyond the range of floats [int / int] raises. *)
Example chunk_overlap_overflow :
  chunk_overlap (MkOptions (10 ^ 400) 1) = Raise overflow.
Proof. vm_compute. reflexivity. Qed.

(** * Further properties of the module *)

(** ** The FAQ splitter: what is kept, what is trimmed, what fails *)

Section SplitterProperties.

Import SmartFAQSplitter.

#[local] Arguments String.append !_ _ / : simpl nomatch.

Lemma pieces_concat s : concat_strings (pieces s) = s.
Proof.
  induction s as [|c s IH]; simpl; [reflexivity|].
  destruct (boundary s); simpl; [by rewrite IH|].
  destruct (pieces s) as [|p ps]; simpl in *; by rewrite <- IH.
Qed.

Lemma re_split_concat s : concat_strings (re_split s) = s.
Proof. unfold re_split. destruct (boundary s); simpl; apply pieces_concat. Qed.

Lemma pieces_step c s :
  pieces (String c s) =
  if boundary s then String c EmptyString :: pieces s
  else match pieces s with
       | p :: ps => String c p :: ps
       | [] => [String c EmptyString]
       end.
Proof. reflexivity. Qed.

Lemma pieces_head c s : exists p ps, pieces (String c s) = String c p :: ps.
Proof.
  simpl. destruct (boundary s); [eauto|]. destruct (pieces s); eauto.
Qed.

Lemma is_LF_eq c : is_LF c = true -> c = LF.
Proof.
  unfold is_LF, code. intros H%N.eqb_eq.
  rewrite <- (ascii_N_embedding c), H. reflexivity.
Qed.

Lemma digits_dot_digit c s : digits_dot false (String c s) = true -> is_digit c = true.
Proof. simpl. by destruct (is_digit c). Qed.

(** Where the lookahead holds, the piece that starts there keeps the two
    newlines and the first digit. *)
Lemma boundary_head_numbered s :
  boundary s = true -> exists p ps, pieces s = p :: ps /\ numbered p.
Proof.
  destruct s as [|a [|b [|c r]]]; try (simpl; discriminate).
  - simpl. by rewrite !andb_false_r.
  - intros H. unfold boundary in H.
    apply andb_true_iff in H as [H Hdd]. apply andb_true_iff in H as [Ha Hb].
    apply is_LF_eq in Ha as ->. apply is_LF_eq in Hb as ->.
    pose proof (digits_dot_digit c r Hdd) as Hc.
    assert (HcLF : is_LF c = false).
    { destruct (is_LF c) eqn:E; [|reflexivity]. apply LF_not_digit in E. congruence. }
    assert (Hb1 : boundary (String LF (String c r)) = false).
    { unfold boundary. by rewrite HcLF, andb_false_r. }
    assert (Hb2 : boundary (String c r) = false).
    { unfold boundary. destruct r; [done|]. by rewrite HcLF. }
    rewrite (pieces_step LF (String LF (String c r))), Hb1.
    rewrite (pieces_step LF (String c r)), Hb2.
    destruct (pieces_head c r) as (p & ps & ->).
    eexists _, _. split; [reflexivity|]. by exists c, p.
Qed.

Lemma pieces_tail_numbered s : Forall numbered (tail (pieces s)).
Proof.
  induction s as [|c s IH]; simpl; [constructor|].
  destruct (boundary s) eqn:E; simpl.
  - destruct (boundary_head_numbered s E) as (p & ps & Hp & Hnum).
    rewrite Hp in IH |- *. simpl in IH. by constructor.
  - destruct (pieces s) as [|p ps]; simpl in *; [constructor | exact IH].
Qed.

Lemma re_split_tail_numbered s : Forall numbered (tail (re_split s)).
Proof.
  unfold re_split. destruct (boundary s) eqn:E; simpl; [|apply pieces_tail_numbered].
  destruct (boundary_head_numbered s E) as (p & ps & Hp & Hnum).
  pose proof (pieces_tail_numbered s) as Ht. rewrite Hp in Ht |- *. by constructor.
Qed.

Lemma numbered_has_digit p : numbered p -> has_digit p = true.
Proof.
  intros (c & r & -> & Hc). simpl. by rewrite Hc.
Qed.

Lemma re_split_not_nil s : re_split s <> [].
Proof.
  unfold re_split. destruct (boundary s); [discriminate|].
  destruct s as [|c s]; [discriminate|].
  destruct (pieces_head c s) as (p & ps & ->). discriminate.
Qed.

Lemma lstrip_while_split p s :
  exists pre, s = pre ++ lstrip_while p s /\ all_chars p pre = true.
Proof.
  induction s as [|c s (pre & Hs & Hpre)]; simpl.
  - by exists EmptyString.
  - destruct (p c) eqn:E.
    + exists (String c pre). simpl. rewrite E, Hpre. split; [by rewrite Hs at 1 | done].
    + by exists EmptyString.
Qed.

Lemma rstrip_while_split p s :
  exists post, s = rstrip_while p s ++ post /\ all_chars p post = true.
Proof.
  induction s as [|c s (post & Hs & Hpost)]; simpl.
  - by exists EmptyString.
  - destruct (rstrip_while p s) as [|c' r] eqn:E.
    + destruct (p c) eqn:Ec.
      * exists (String c post). simpl in *. rewrite Ec, Hpost. by rewrite Hs at 1.
      * exists post. simpl in *. by rewrite Hs at 1.
    + exists post. split; [simpl; by rewrite Hs at 1 | done].
Qed.

Lemma lstrip_while_head p s c : head_char (lstrip_while p s) = Some c -> p c = false.
Proof.
  induction s as [|a s IH]; simpl; [discriminate|].
  destruct (p a) eqn:E; [exact IH|]. simpl. by intros [= <-].
Qed.

Lemma rstrip_while_head p s c :
  head_char (rstrip_while p s) = Some c -> head_char s = Some c.
Proof.
  destruct s as [|a s]; simpl; [discriminate|].
  destruct (rstrip_while p s); [destruct (p a)|]; simpl; congruence.
Qed.

Lemma rstrip_while_last p s c : last_char (rstrip_while p s) = Some c -> p c = false.
Proof.
  induction s as [|a s IH]; simpl; [discriminate|].
  destruct (rstrip_while p s) as [|c' r] eqn:E.
  - destruct (p a) eqn:Ea; simpl; [discriminate|]. by intros [= <-].
  - exact IH.
Qed.

(** What [re.sub] leaves of a segment. *)
Lemma sub_newlines_spec seg :
  (exists pre post,
     seg = pre ++ sub_newlines seg ++ post /\
     all_chars is_LF pre = true /\ all_chars is_LF post = true) /\
  (forall c, head_char (sub_newlines seg) = Some c -> is_LF c = false) /\
  (forall c, last_char (sub_newlines seg) = Some c -> is_LF c = false).
Proof.
  unfold sub_newlines. split; [|split].
  - destruct (lstrip_while_split is_LF seg) as (pre & Hs & Hpre).
    destruct (rstrip_while_split is_LF (lstrip_while is_LF seg)) as (post & Hr & Hpost).
    exists pre, post. split; [|done]. rewrite Hs at 1. by rewrite Hr at 1.
  - intros c H. apply rstrip_while_head in H. by apply lstrip_while_head in H.
  - intros c. apply rstrip_while_last.
Qed.

Lemma has_digit_concat l : has_digit (concat_strings l) = existsb has_digit l.
Proof.
  induction l as [|x l IH]; simpl; [reflexivity|]. rewrite <- IH.
  induction x as [|c x IHx]; simpl; [reflexivity|]. by rewrite IHx, orb_assoc.
Qed.

Lemma no_digit_lstrip p s : has_digit s = false -> has_digit (lstrip_while p s) = false.
Proof.
  induction s as [|c s IH]; simpl; [done|].
  intros [Hc Hs]%orb_false_iff. destruct (p c); [by apply IH|]. simpl. by rewrite Hc, Hs.
Qed.

Lemma no_digit_rstrip p s : has_digit s = false -> has_digit (rstrip_while p s) = false.
Proof.
  induction s as [|c s IH]; simpl; [done|].
  intros [Hc Hs]%orb_false_iff. specialize (IH Hs).
  destruct (rstrip_while p s); [destruct (p c)|]; simpl in *; by rewrite ?Hc, ?IH.
Qed.

Lemma split_loop_acc documents acc :
  split_loop documents acc =
  chunks ← split_loop documents []; Return (acc ++ chunks)%list.
Proof.
  revert acc. induction documents as [|d ds IH]; intros acc; simpl.
  - unfold_bind. by rewrite app_nil_r.
  - unfold_bind. destruct (comprehension faq_chunk (filtered_text d)) as [c|e]; [|done].
    rewrite (IH (acc ++ c)%list), (IH c). unfold_bind.
    destruct (split_loop ds []); [|done]. simpl. by rewrite app_assoc.
Qed.

Lemma split_loop_app l1 l2 acc :
  split_loop (l1 ++ l2) acc = chunks ← split_loop l1 acc; split_loop l2 chunks.
Proof.
  revert acc. induction l1 as [|d ds IH]; intros acc; simpl; [done|].
  unfold_bind. destruct (comprehension faq_chunk (filtered_text d)); [apply IH | done].
Qed.

End SplitterProperties.

(** X1: the segments [re.split] cuts a document into, concatenated, are the
    stripped content of the document: splitting loses no text. *)
Theorem split_text_concat (document : Document) :
  concat_strings (SmartFAQSplitter.split_text document) = strip (page_content document).
Proof. apply re_split_concat. Qed.

(** X2: every segment after the first begins with the two newlines and the
    number that made the boundary, so only the first segment of a document
    can lack a digit: [split_documents] raises [IndexError] exactly when the
    text before the first boundary of some document contains no digit. *)
Theorem split_documents_raises_on_first_segment (documents : list Document) :
  SmartFAQSplitter.split_documents documents = Raise index_error <->
  exists document,
    document ∈ documents /\
    has_digit (at_first (SmartFAQSplitter.split_text document)) = false.
Proof.
  unfold SmartFAQSplitter.split_documents, SmartFAQSplitter.split_text, at_first. split.
  - intros (d & t & Hd & Ht & Hf)%split_loop_raises.
    apply faq_chunk_raises in Hf as [_ Hno].
    destruct (filtered_text_has_digit _ _ Ht) as (seg & Hseg & Heq).
    exists d. split; [done|]. unfold SmartFAQSplitter.split_text in Hseg.
    pose proof (re_split_tail_numbered (strip (page_content d))) as Htail.
    destruct (re_split (strip (page_content d))) as [|x rest]; [by apply elem_of_nil in Hseg|].
    simpl in *. apply elem_of_cons in Hseg as [->|Hin]; [congruence|].
    rewrite Forall_forall in Htail. apply Htail, numbered_has_digit in Hin. congruence.
  - intros (d & Hd & Hno).
    pose proof (re_split_not_nil (strip (page_content d))) as Hnil.
    destruct (re_split (strip (page_content d))) as [|x rest] eqn:E; [done|]. simpl in Hno.
    apply (split_loop_no_digit documents [] d (sub_newlines x)); [done| |].
    + unfold SmartFAQSplitter.filtered_text, SmartFAQSplitter.split_text. rewrite E.
      apply list_elem_of_fmap_2. by left.
    + by rewrite has_digit_sub_newlines.
Qed.

(** X3: the content of every returned chunk is a segment of its document
    with newlines, and nothing else, removed at the two ends; it neither
    begins nor ends with a newline. *)
Theorem chunk_is_trimmed_segment (documents chunks : list Document) (chunk : Document) :
  SmartFAQSplitter.split_documents documents = Return chunks ->
  chunk ∈ chunks ->
  (exists document seg pre post,
     document ∈ documents /\ seg ∈ SmartFAQSplitter.split_text document /\
     seg = pre ++ page_content chunk ++ post /\
     all_chars is_LF pre = true /\ all_chars is_LF post = true) /\
  (forall c, head_char (page_content chunk) = Some c -> is_LF c = false) /\
  (forall c, last_char (page_content chunk) = Some c -> is_LF c = false).
Proof.
  intros H Hc. destruct (split_loop_elem _ _ _ _ H Hc) as [Hnil|(d & t & Hd & Ht & Hf)].
  { by apply elem_of_nil in Hnil. }
  rewrite faq_chunk_eq in Hf. destruct (first_digit t); [|discriminate].
  injection Hf as <-. simpl.
  unfold SmartFAQSplitter.filtered_text in Ht.
  apply list_elem_of_fmap in Ht as (seg & -> & Hseg).
  destruct (sub_newlines_spec seg) as ((pre & post & Hs & Hpre & Hpost) & Hhead & Hlast).
  split; [|by split]. by exists d, seg, pre, post.
Qed.

(** X4: the metadata of a returned chunk is the single key [faq_no] with a
    value between 0 and 9; the metadata of the input documents is not
    carried over. *)
Theorem chunk_metadata_is_one_digit (documents chunks : list Document) (chunk : Document) :
  SmartFAQSplitter.split_documents documents = Return chunks ->
  chunk ∈ chunks ->
  exists d : Z, (0 <= d <= 9)%Z /\ metadata chunk = {[ "faq_no" := MInt d ]}.
Proof.
  intros H Hc. destruct (split_documents_faq_no _ _ _ H Hc) as (c & Hfirst & Hmeta).
  exists (digit_value c). split; [|done].
  apply first_digit_is_digit in Hfirst. unfold is_digit in Hfirst. unfold digit_value.
  apply andb_true_iff in Hfirst as [H1%N.leb_le H2%N.leb_le]. lia.
Qed.

(** X5: documents are split one after the other and independently: the
    chunks of a concatenated input are the chunks of its first part followed
    by those of its second part, and an [IndexError] in the first part is
    raised before the second part is looked at. *)
Theorem split_documents_app (l1 l2 : list Document) :
  SmartFAQSplitter.split_documents (l1 ++ l2) =
  c1 ← SmartFAQSplitter.split_documents l1;
  c2 ← SmartFAQSplitter.split_documents l2;
  Return (c1 ++ c2)%list.
Proof.
  unfold SmartFAQSplitter.split_documents. rewrite split_loop_app. unfold_bind.
  destruct (SmartFAQSplitter.split_loop l1 []) as [c1|e]; [|done].
  apply (split_loop_acc l2 c1).
Qed.

(** X6: one document without any digit (an empty or blank one, say) makes
    the whole call raise [IndexError], whatever the other documents are. *)
Theorem split_documents_digit_free (documents : list Document) (document : Document) :
  document ∈ documents ->
  has_digit (page_content document) = false ->
  SmartFAQSplitter.split_documents documents = Raise index_error.
Proof.
  intros Hd Hno. unfold SmartFAQSplitter.split_documents.
  assert (Hstrip : has_digit (strip (page_content document)) = false).
  { unfold strip. by apply no_digit_rstrip, no_digit_lstrip. }
  rewrite <- (re_split_concat (strip (page_content document))), has_digit_concat in Hstrip.
  pose proof (re_split_not_nil (strip (page_content document))) as Hnil.
  destruct (re_split (strip (page_content document))) as [|x rest] eqn:E; [done|].
  simpl in Hstrip. apply orb_false_iff in Hstrip as [Hx _].
  apply (split_loop_no_digit documents [] document (sub_newlines x)); [done| |].
  - unfold SmartFAQSplitter.filtered_text, SmartFAQSplitter.split_text. rewrite E.
    apply list_elem_of_fmap_2. by left.
  - by rewrite has_digit_sub_newlines.
Qed.

Lemma chunk_is_trimmed_segment_witness :
  let chunks := [MkDocument ("1. A" ++ nl ++ "text") {[ "faq_no" := MInt 1 ]};
                 MkDocument ("2. B" ++ nl ++ "text") {[ "faq_no" := MInt 2 ]}] in
  SmartFAQSplitter.split_documents [text_doc faq_example] = Return chunks /\
  (forall c, head_char ("2. B" ++ nl ++ "text") = Some c -> is_LF c = false).
Proof.
  cbv zeta.
  assert (H : SmartFAQSplitter.split_documents [text_doc faq_example]
              = Return [MkDocument ("1. A" ++ nl ++ "text") {[ "faq_no" := MInt 1 ]};
                        MkDocument ("2. B" ++ nl ++ "text") {[ "faq_no" := MInt 2 ]}])
    by (vm_compute; reflexivity).
  split; [exact H|].
  exact (proj1 (proj2 (chunk_is_trimmed_segment _ _
           (MkDocument ("2. B" ++ nl ++ "text") {[ "faq_no" := MInt 2 ]}) H
           ltac:(right; left)))).
Defined.

Lemma chunk_metadata_is_one_digit_witness :
  SmartFAQSplitter.split_documents [text_doc "12. Twelfth entry"]
  = Return [MkDocument "12. Twelfth entry" {[ "faq_no" := MInt 1 ]}] /\
  exists d : Z, (0 <= d <= 9)%Z /\
    metadata (MkDocument "12. Twelfth entry" {[ "faq_no" := MInt 1 ]})
    = {[ "faq_no" := MInt d ]}.
Proof.
  assert (H : SmartFAQSplitter.split_documents [text_doc "12. Twelfth entry"]
              = Return [MkDocument "12. Twelfth entry" {[ "faq_no" := MInt 1 ]}])
    by (vm_compute; reflexivity).
  split; [exact H|].
  exact (chunk_metadata_is_one_digit _ _
           (MkDocument "12. Twelfth entry" {[ "faq_no" := MInt 1 ]}) H ltac:(left)).
Defined.

Lemma split_documents_digit_free_witness :
  has_digit (page_content (text_doc "   ")) = false /\
  SmartFAQSplitter.split_documents [text_doc "1. First"; text_doc "   "] = Raise index_error.
Proof.
  split; [reflexivity|].
  exact (split_documents_digit_free [text_doc "1. First"; text_doc "   "] (text_doc "   ")
           ltac:(right; left) eq_refl).
Defined.

(** ** The Git loader: its calls, and what it leaves on disk *)

Section GitFurther.

Variable DATA_PATH : string.

Variable GitLoader :
  string -> option string -> string -> gmap string node ->
  gmap string node * outcome (list Document).

Abbreviation git_loader := (AutoGitLoader_load DATA_PATH GitLoader).


(** X8: [GitLoader] is called once, for ["main"], when that attempt returns,
    and otherwise twice, for ["main"] and then ["master"]; both calls get the
    same path and the same clone URL, as computed before the first attempt.
    It is not called at all when [os.makedirs] raises. *)
Theorem git_attempts (data_source : string) (w : World) :
  let made := ensure_data_path DATA_PATH w in
  let w0 := made.1 in
  let path := repo_path DATA_PATH data_source in
  let url := clone_url_of DATA_PATH data_source w0 in
  git_calls (git_loader data_source w).1 =
  (git_calls w ++
   match made.2 with
   | Raise _ => []
   | Return _ =>
       match (GitLoader path url "main" (fs w0)).2 with
       | Return _ => [(path, url, "main")]
       | Raise _ => [(path, url, "main"); (path, url, "master")]
       end
   end)%list.
Proof.
  cbv zeta. rewrite load_world. cbv zeta.
  pose proof (git_calls_ensure_data_path DATA_PATH w) as Hcalls.
  destruct (ensure_data_path DATA_PATH w) as [w0 [u|e]]; cbn [fst snd] in *;
    [|by rewrite app_nil_r].
  rewrite git_calls_cleanup, <- Hcalls.
  pose proof (try_branches_traces GitLoader (repo_path DATA_PATH data_source)
                (clone_url_of DATA_PATH data_source w0) w0) as Ht.
  cbv zeta in Ht.
  destruct (GitLoader _ _ "main" (fs w0)) as [f1 [d1|e1]]; cbn [fst snd] in *.
  - apply Ht.
  - destruct (GitLoader _ _ "master" f1) as [f2 [d2|e2]]; cbn [fst snd] in Ht; apply Ht.
Qed.

(** X9: a path that is neither the clone path nor below it, and that
    [GitLoader] leaves alone, is after the call what it was once
    [os.makedirs] had run.  If it is neither the scratch directory nor one
    of the directories above it, which [os.makedirs] creates when they are
    missing, it is what it was before the call; and in any case what was
    there before the call is still there. *)
Theorem load_frame (data_source : string) (w : World) (q : string) :
  under (repo_path DATA_PATH data_source) q = false ->
  (forall url branch f,
     (GitLoader (repo_path DATA_PATH data_source) url branch f).1 !! q = f !! q) ->
  fs (git_loader data_source w).1 !! q = fs (ensure_data_path DATA_PATH w).1 !! q /\
  (q ∉ DATA_PATH :: ancestors DATA_PATH ->
   fs (git_loader data_source w).1 !! q = fs w !! q) /\
  (forall n, fs w !! q = Some n -> fs (git_loader data_source w).1 !! q = Some n).
Proof.
  intros Hq Hgit.
  assert (H : fs (git_loader data_source w).1 !! q
              = fs (ensure_data_path DATA_PATH w).1 !! q).
  { rewrite load_world. cbv zeta.
    destruct (ensure_data_path DATA_PATH w) as [w0 [u|e]]; cbn [fst snd]; [|done].
    rewrite lookup_cleanup, Hq. cbn [andb].
    set (path := repo_path DATA_PATH data_source) in *.
    set (url := clone_url_of DATA_PATH data_source w0).
    pose proof (try_branches_traces GitLoader path url w0) as Ht. cbv zeta in Ht.
    pose proof (Hgit url "main" (fs w0)) as H1.
    destruct (GitLoader path url "main" (fs w0)) as [f1 [d1|e1]]; cbn [fst snd] in *.
    - destruct Ht as (_ & -> & _). exact H1.
    - pose proof (Hgit url "master" f1) as H2.
      destruct (GitLoader path url "master" f1) as [f2 [d2|e2]]; cbn [fst snd] in *;
        destruct Ht as (_ & -> & _); congruence. }
  split; [exact H|]. split.
  - intros Hne. rewrite H. by apply frame_ensure_data_path.
  - intros n Hn. rewrite H. by apply lookup_ensure_data_path.
Qed.

End GitFurther.

(** [os.makedirs] on a scratch path two levels down: the directories above
    it are made as well; a regular file on the way stops it. *)
Example makedirs_creates_parents :
  ancestors "/a/b/data" = ["/a"; "/a/b"] /\
  makedirs "/a/b/data" ∅ =
  (list_to_map [("/a", Dir); ("/a/b", Dir); ("/a/b/data", Dir)], Return tt) /\
  makedirs "/a/b/data" {[ "/a" := File ]} =
  ({[ "/a" := File ]}, Raise not_a_directory_error).
Proof. vm_compute. repeat split. Qed.


Lemma load_frame_witness :
  under (repo_path Scenario.DATA_PATH "https://github.com/user/legacy.git")
    "corpus/notes.txt" = false /\
  fs (AutoGitLoader_load Scenario.DATA_PATH Scenario.GitLoader
        "https://github.com/user/legacy.git" Scenario.world).1 !! "corpus/notes.txt"
  = fs Scenario.world !! "corpus/notes.txt".
Proof.
  split; [reflexivity|].
  refine (proj1 (proj2 (load_frame Scenario.DATA_PATH Scenario.GitLoader
                   "https://github.com/user/legacy.git" Scenario.world "corpus/notes.txt"
                   eq_refl _)) _).
  - intros url branch f. unfold Scenario.GitLoader. destruct url; simpl.
    + apply lookup_insert_ne. discriminate.
    + by destruct (path_exists _ f).
  - change (ancestors Scenario.DATA_PATH) with (@nil string).
    intros [Hin|Hin%elem_of_nil]%elem_of_cons; [discriminate | exact Hin].
Defined.

(** ** Local sources: the registry, the walk and its traces *)

Lemma file_registry_classes (k : string) (e : loader_class * loader_args) :
  FILE_LOADER_MAPPING !! k = Some e -> e.1 <> AutoGitLoader.
Proof.
  unfold FILE_LOADER_MAPPING. intros H%elem_of_list_to_map_2.
  repeat (apply elem_of_cons in H as [[= -> ->]|H]; [simpl; discriminate|]).
  by apply elem_of_nil in H.
Qed.

Lemma file_registry_no_git (file_path : string) :
  (choose_loader file_path FILE_LOADER_MAPPING UnstructuredFileLoader).1 <> AutoGitLoader.
Proof.
  unfold choose_loader.
  destruct (FILE_LOADER_MAPPING !! ext_of file_path) as [e|] eqn:E;
    [by apply (file_registry_classes _ _ E) | simpl; discriminate].
Qed.

Section LocalSources.

Variable DATA_PATH : string.

Variable GitLoader :
  string -> option string -> string -> gmap string node ->
  gmap string node * outcome (list Document).

Variable library_loader :
  loader_class -> loader_args -> string -> gmap string node ->
  gmap string node * outcome (list Document).

Variable rglob : string -> gmap string node -> list string.

Abbreviation local_doc :=
  (fun file w =>
     load_document DATA_PATH GitLoader library_loader file
       FILE_LOADER_MAPPING UnstructuredFileLoader w).
Abbreviation walking := (walk DATA_PATH GitLoader library_loader).
Abbreviation directory := (load_directory DATA_PATH GitLoader library_loader rglob).
Abbreviation data_source_loader :=
  (load_data_source DATA_PATH GitLoader library_loader rglob).

(** A loader class of a library changes the file system only. *)
Lemma run_library_loader (loader : loader_class * loader_args) file_path w :
  loader.1 <> AutoGitLoader ->
  run_loader DATA_PATH GitLoader library_loader loader file_path w =
  (set_fs (library_loader loader.1 loader.2 file_path (fs w)).1 w,
   (library_loader loader.1 loader.2 file_path (fs w)).2).
Proof.
  intros H. unfold run_loader.
  destruct loader.1; try done; by destruct (library_loader _ _ _ _).
Qed.

Lemma local_doc_traces file w :
  git_calls (local_doc file w).1 = git_calls w /\
  log (local_doc file w).1 = log w /\
  pbar (local_doc file w).1 = pbar w.
Proof.
  unfold load_document. by rewrite (run_library_loader _ _ _ (file_registry_no_git file)).
Qed.

(** The traces of the walk: no call to [GitLoader]; one log record per file
    that failed, in order, and only when silent; one progress update per
    file, except the file that stopped the walk. *)
Lemma walk_traces silent files results w :
  git_calls (walking silent files results w).1 = git_calls w /\
  (exists failed,
     sublist failed files /\
     (silent = false -> failed = []) /\
     log (walking silent files results w).1
     = (log w ++ (Error_failed_to_load <$> failed))%list) /\
  match (walking silent files results w).2 with
  | Return _ => pbar (walking silent files results w).1 = (pbar w + length files)%nat
  | Raise _ =>
      silent = false /\
      (pbar (walking silent files results w).1 < pbar w + length files)%nat
  end.
Proof.
  revert results w. induction files as [|file rest IH]; intros results w; cbn [walk].
  - simpl. split; [done|]. split; [|lia].
    exists []. split; [constructor|]. split; [done|]. by rewrite app_nil_r.
  - destruct (local_doc_traces file w) as (Hg & Hl & Hp).
    destruct (local_doc file w) as [w1 [docs|e]]; simpl in Hg, Hl, Hp.
    + destruct (IH (results ++ docs)%list (pbar_update w1))
        as (IHg & (failed & Hsub & Hloud & IHl) & IHp).
      split; [by rewrite IHg|]. split.
      * exists failed. split; [by constructor|]. split; [done|].
        rewrite IHl. simpl. by rewrite Hl.
      * destruct (walking silent rest _ _).2; simpl in *;
          [lia | destruct IHp; split; [done | lia]].
    + destruct silent.
      * destruct (IH results (pbar_update (logger (Error_failed_to_load file) w1)))
          as (IHg & (failed & Hsub & Hloud & IHl) & IHp).
        split; [by rewrite IHg|]. split.
        -- exists (file :: failed). split; [by constructor|]. split; [done|].
           rewrite IHl. simpl. by rewrite Hl, <- app_assoc.
        -- destruct (walking true rest _ _).2; simpl in *; [lia|].
           by destruct IHp.
      * simpl. split; [done|]. split.
        -- exists []. split; [apply sublist_nil_l|]. split; [done|].
           by rewrite Hl, app_nil_r.
        -- split; [done|]. lia.
Qed.

(** X10: the progress bar is updated once per enumerated file that was
    visited without aborting the walk: when [load_directory] returns, by the
    number of files enumerated, failed or not; and [load_directory] raises
    only when [silent_errors] is off, the file that raised not being
    counted. *)
Theorem load_directory_progress (path : string) (silent_errors : bool) (w : World) :
  match (directory path silent_errors w).2 with
  | Return _ =>
      pbar (directory path silent_errors w).1
      = (pbar w + length (rglob path (fs w)))%nat
  | Raise _ =>
      silent_errors = false /\
      (pbar (directory path silent_errors w).1 < pbar w + length (rglob path (fs w)))%nat
  end.
Proof. apply walk_traces. Qed.

(** The log of the walk, from the loaders' outcomes alone. *)
Lemma walk_log silent files : forall results w,
  log (walking silent files results w).1 =
  (log w ++
   if silent
   then Error_failed_to_load <$> raising_files library_loader files (fs w)
   else [])%list.
Proof.
  induction files as [|file rest IH]; intros results w; cbn [walk raising_files].
  - destruct silent; cbn [fst fmap list_fmap]; by rewrite app_nil_r.
  - unfold load_document.
    rewrite (run_library_loader _ _ _ (file_registry_no_git file)).
    destruct (library_loader _ _ file (fs w)) as [f1 [docs|e]]; cbn [fst snd].
    + by rewrite IH.
    + destruct silent.
      * rewrite IH. cbn [log logger pbar_update set_fs fs]. by rewrite <- app_assoc.
      * cbn [fst log set_fs]. by rewrite app_nil_r.
Qed.

(** X11: what [load_directory] adds to the log is one ["failed to load"]
    record for each enumerated file whose loader raised, in enumeration
    order, and nothing else; with [silent_errors] off it logs nothing at
    all. *)
Theorem load_directory_log (path : string) (silent_errors : bool) (w : World) :
  log (directory path silent_errors w).1 =
  (log w ++
   if silent_errors
   then Error_failed_to_load <$> raising_files library_loader (rglob path (fs w)) (fs w)
   else [])%list.
Proof. apply walk_log. Qed.

(** X12: a source that is an existing directory or an existing file never
    reaches the Git loader, whatever its name: [GitLoader] is not called. *)
Theorem local_source_never_clones (data_source : string) (w : World) :
  isdir data_source (fs w) = true \/ isfile data_source (fs w) = true ->
  git_calls (data_source_loader data_source w).1 = git_calls w.
Proof.
  intros Hlocal. unfold load_data_source, dispatch, load_directory_default.
  assert (Hre : forall r : World * outcome (list Document),
             git_calls (reraise data_source r).1 = git_calls r.1).
  { intros [w' [docs|e]]; reflexivity. }
  rewrite Hre. destruct (isdir data_source (fs w)) eqn:Hdir.
  - apply walk_traces.
  - destruct Hlocal as [|Hfile]; [discriminate|]. rewrite Hfile.
    apply (local_doc_traces data_source w).
Qed.

(** X13: loading a source that is an existing directory never raises: the
    failures of single files are absorbed by the silent walk. *)
Theorem directory_source_returns (data_source : string) (w : World) :
  isdir data_source (fs w) = true ->
  exists w' docs, data_source_loader data_source w = (w', Return docs).
Proof.
  intros Hdir. unfold load_data_source, dispatch, load_directory_default, load_directory.
  rewrite Hdir.
  destruct (walk_silent_returns DATA_PATH GitLoader library_loader
              (rglob data_source (fs w)) [] w) as (w' & docs & ->).
  simpl. eauto.
Qed.


End LocalSources.

(** X15: the registry is consulted under ["."] followed by the text after
    the last period of the path; a path without any period is consulted
    under ["."] followed by the whole path.  The default loader, without
    arguments, is used when the registry has no such key. *)
Theorem registry_key_is_last_suffix
    (mapping : gmap string (loader_class * loader_args))
    (default_loader : loader_class) (t : string) :
  contains "." t = false ->
  (forall pre,
     choose_loader (pre ++ String "." t) mapping default_loader =
     match mapping !! String "." t with
     | Some entry => entry
     | None => (default_loader, [])
     end) /\
  choose_loader t mapping default_loader =
  match mapping !! String "." t with
  | Some entry => entry
  | None => (default_loader, [])
  end.
Proof.
  intros Ht. unfold choose_loader. split; [intros pre|].
  - by rewrite (proj2 (ext_of_eq (pre ++ String "." t) t Ht) (or_intror (ex_intro _ pre eq_refl))).
  - by rewrite (proj2 (ext_of_eq t t Ht) (or_introl eq_refl)).
Qed.

Module FurtherExamples.

Import Scenario.

Lemma local_source_never_clones_witness :
  isfile "http_notes.txt" (fs world) = true /\
  git_calls (load_data_source DATA_PATH GitLoader library_loader rglob
               "http_notes.txt" world).1 = git_calls world.
Proof.
  split; [reflexivity|].
  exact (local_source_never_clones DATA_PATH GitLoader library_loader rglob
           "http_notes.txt" world (or_intror eq_refl)).
Defined.

Lemma directory_source_returns_witness :
  isdir "corpus" (fs world) = true /\
  exists w' docs,
    load_data_source DATA_PATH GitLoader library_loader rglob "corpus" world
    = (w', Return docs).
Proof.
  split; [reflexivity|].
  exact (directory_source_returns DATA_PATH GitLoader library_loader rglob
           "corpus" world eq_refl).
Defined.


Lemma registry_key_is_last_suffix_witness :
  contains "." "txt" = false /\
  choose_loader "corpus/notes.v2.txt" FILE_LOADER_MAPPING UnstructuredFileLoader
  = (TextLoader, [("encoding", "utf8")]) /\
  choose_loader "txt" FILE_LOADER_MAPPING UnstructuredFileLoader
  = (TextLoader, [("encoding", "utf8")]).
Proof.
  split; [reflexivity|].
  destruct (registry_key_is_last_suffix FILE_LOADER_MAPPING UnstructuredFileLoader
              "txt" eq_refl) as [Hsuffix Hbare].
  split; [exact (Hsuffix "corpus/notes.v2") | exact Hbare].
Defined.

End FurtherExamples.

(** ** The overlap on options the module does not check, and [split_docs] *)

Section OverlapFurther.

Import PyFloat.

Local Open Scope Z_scope.

Lemma truediv_neg (n : Z) :
  n < 0 ->
  truediv n 100 =
  if too_large (round53 (- n) 100) then Raise overflow
  else Return (MkFloat (- mant (round53 (- n) 100)) (expo (round53 (- n) 100))).
Proof.
  intros Hn. unfold truediv.
  destruct (Z.eqb_spec n 0) as [->|_]; [lia|]. simpl (100 =? 0).
  cbv iota. rewrite (Z.abs_neq n) by lia. change (Z.abs 100) with 100.
  rewrite (Z.sgn_neg n) by lia. change (Z.sgn 100) with 1.
  destruct (too_large (round53 (- n) 100)); [reflexivity|].
  replace (-1 * 1 * mant (round53 (- n) 100)) with (- mant (round53 (- n) 100)) by lia.
  reflexivity.
Qed.

(** Below [2 ^ 53] in magnitude, the overlap is the quotient truncated
    toward zero. *)
Lemma chunk_overlap_quot (cs pct : Z) :
  Z.abs (cs * pct) < 2 ^ 53 ->
  chunk_overlap (MkOptions cs pct) = Return (Z.quot (cs * pct) 100).
Proof.
  intros Hsmall. unfold chunk_overlap. simpl chunk_size. simpl chunk_overlap_pct.
  set (n := cs * pct) in *.
  destruct (Z.lt_trichotomy n 0) as [Hneg|[->|Hpos]].
  - rewrite (truediv_neg n Hneg).
    assert (Hn : 0 < - n) by lia.
    pose proof (round53_expo_small (- n) Hn ltac:(lia)) as He.
    destruct (int_of_round53_exact (- n) Hn ltac:(lia)) as [-> Hint].
    unfold_bind. f_equal. unfold int_of_float in *. cbn [mant expo] in *.
    set (e := expo (round53 (- n) 100)) in *. set (m := mant (round53 (- n) 100)) in *.
    destruct (Z.leb_spec 0 e); [lia|].
    assert (0 < 2 ^ (- e)) by (apply Z.pow_pos_nonneg; lia).
    rewrite Z.quot_opp_l by lia. rewrite Hint.
    rewrite <- (Z.opp_involutive n) at 2. rewrite Z.quot_opp_l by lia.
    by rewrite Z.quot_div_nonneg by lia.
  - reflexivity.
  - rewrite (truediv_pos n Hpos).
    pose proof (round53_expo_small n Hpos ltac:(lia)) as He.
    destruct (int_of_round53_exact n Hpos ltac:(lia)) as [-> Hint].
    unfold_bind. rewrite Hint. by rewrite Z.quot_div_nonneg by lia.
Qed.

End OverlapFurther.

(** X16: [int] truncates toward zero, and the options are not checked: for
    every [chunk_size] and [chunk_overlap_pct], of either sign, whose product
    is below [2 ^ 53] in magnitude, the overlap is the product divided by 100
    and truncated toward zero (so [-150 / 100] gives [-1]). *)
Theorem chunk_overlap_truncates_toward_zero (cs pct : Z) :
  (Z.abs (cs * pct) < 2 ^ 53)%Z ->
  chunk_overlap (MkOptions cs pct) = Return (Z.quot (cs * pct) 100).
Proof. apply chunk_overlap_quot. Qed.

Lemma chunk_overlap_truncates_toward_zero_witness :
  (Z.abs (150 * -1) < 2 ^ 53)%Z /\ chunk_overlap (MkOptions 150 (-1)) = Return (-1)%Z.
Proof.
  assert (H : (Z.abs (150 * -1) < 2 ^ 53)%Z) by (vm_compute; reflexivity).
  split; [exact H|]. exact (chunk_overlap_truncates_toward_zero 150 (-1) H).
Defined.

(** X17: with any other store type and options in range ([chunk_size > 0],
    [0 <= chunk_overlap_pct < 100], product below [2 ^ 53]), [split_docs]
    runs the token splitter with that chunk size, the overlap
    [chunk_size * chunk_overlap_pct / 100] truncated, which is below the
    chunk size, and the module's separator list; it logs the number of
    chunks when the splitter returns and nothing when it raises. *)
Theorem split_docs_token_mode (SMART_FAQ : string)
    (splitter : Options -> Z -> Z -> list string -> list Document ->
                outcome (list Document))
    (docs : list Document) (store_type : string) (options : Options) (w : World) :
  store_type <> SMART_FAQ ->
  (0 < chunk_size options)%Z ->
  (0 <= chunk_overlap_pct options < 100)%Z ->
  (chunk_size options * chunk_overlap_pct options < 2 ^ 53)%Z ->
  (chunk_size options * chunk_overlap_pct options / 100 < chunk_size options)%Z /\
  split_docs SMART_FAQ splitter docs store_type options w =
  match splitter options (chunk_size options)
          (chunk_size options * chunk_overlap_pct options / 100)%Z separators docs with
  | Return chunks => (logger (Info_loaded (length chunks)) w, Return chunks)
  | Raise e => (w, Raise e)
  end.
Proof.
  intros Hst Hcs Hpct Hsmall. destruct options as [cs pct]. simpl in *.
  split; [apply Z.div_lt_upper_bound; nia|].
  unfold split_docs. destruct (String.eqb_spec store_type SMART_FAQ) as [|_]; [done|].
  rewrite chunk_overlap_quot by (simpl; rewrite Z.abs_eq; nia).
  unfold_bind. simpl. by rewrite Z.quot_div_nonneg by nia.
Qed.

Lemma split_docs_token_mode_witness :
  ("Deep Lake" <> "Smart FAQ" /\ (0 < 512)%Z /\ (0 <= 20 < 100)%Z /\
   (512 * 20 < 2 ^ 53)%Z) /\
  (512 * 20 / 100 < 512)%Z /\
  split_docs "Smart FAQ" (fun _ _ _ _ docs => Return docs)
    [text_doc "some text"] "Deep Lake" (MkOptions 512 20) Scenario.fresh
  = (logger (Info_loaded 1) Scenario.fresh, Return [text_doc "some text"]).
Proof.
  assert (H1 : "Deep Lake" <> "Smart FAQ") by discriminate.
  assert (H2 : (0 < 512)%Z) by lia.
  assert (H3 : (0 <= 20 < 100)%Z) by lia.
  assert (H4 : (512 * 20 < 2 ^ 53)%Z) by (vm_compute; reflexivity).
  split; [by repeat split|].
  exact (split_docs_token_mode "Smart FAQ" (fun _ _ _ _ docs => Return docs)
           [text_doc "some text"] "Deep Lake" (MkOptions 512 20) Scenario.fresh
           H1 H2 H3 H4).
Defined.

(** ** The clone path *)

Section ClonePath.

#[local] Arguments String.append !_ _ / : simpl nomatch.

Lemma prefix_app (p s : string) : String.prefix p (p ++ s) = true.
Proof.
  induction p as [|c p IH]; simpl; [by destruct s|].
  destruct (ascii_dec c c); [exact IH | done].
Qed.

Lemma append_assoc (a b c : string) : (a ++ b) ++ c = a ++ (b ++ c).
Proof. induction a as [|x a IH]; simpl; [done | by rewrite IH]. Qed.

(** [(pre + sep + t).split(sep)[-1] == t] when [t] has no separator. *)
Lemma split_last_eq (sep : ascii) (pre t : string) :
  contains sep t = false -> at_last (split sep (pre ++ String sep t)) = t.
Proof.
  intros Ht. destruct (split_last sep (pre ++ String sep t)) as (pre0 & Hs & Hno & Hpre).
  destruct Hpre as [[-> _]|[[p ->] _]].
  - simpl in Hs. rewrite <- Hs, contains_app in Hno. simpl in Hno.
    rewrite Ascii.eqb_refl, orb_true_r in Hno. discriminate.
  - rewrite append_assoc in Hs. simpl in Hs. symmetry.
    by apply (last_part_unique sep pre t p (at_last (split sep (pre ++ String sep t)))).
Qed.

End ClonePath.

(** X18: the clone path never leaves the scratch directory: the name
    derived from the URL has no ["/"] and no period (so it is never [".."]),
    and the clone path is the scratch directory or an entry directly in
    it. *)
Theorem repo_path_inside_scratch (DATA_PATH data_source : string) :
  contains "/" (repo_name data_source) = false /\
  contains "." (repo_name data_source) = false /\
  under DATA_PATH (repo_path DATA_PATH data_source) = true /\
  (repo_path DATA_PATH data_source = DATA_PATH \/
   repo_path DATA_PATH data_source = DATA_PATH ++ "/" ++ repo_name data_source).
Proof.
  unfold repo_name.
  destruct (split_last "/" data_source) as (pre & _ & Hslash & _).
  destruct (split_first "." (at_last (split "/" data_source))) as (rest & Hseg & Hdot & _).
  set (name := at_first (split "." (at_last (split "/" data_source)))) in *.
  assert (Hname : contains "/" name = false).
  { rewrite Hseg, contains_app in Hslash. by apply orb_false_iff in Hslash as [? _]. }
  split; [exact Hname|]. split; [exact Hdot|].
  unfold repo_path, repo_name. fold name. unfold joinpath, under.
  destruct name as [|c name'].
  - rewrite String.eqb_refl. auto.
  - split; [|by right]. apply orb_true_iff. right.
    rewrite <- (append_assoc DATA_PATH "/" (String c name')). apply prefix_app.
Qed.

(** X19: the clone path depends on the last segment of the URL only, and on
    that segment up to its first period: URLs that differ in host or owner,
    or in what follows the first period of the last segment, share one clone
    path. *)
Theorem repo_path_ignores_owner (DATA_PATH pre1 pre2 name rest1 rest2 : string) :
  contains "/" name = false -> contains "." name = false ->
  contains "/" rest1 = false -> contains "/" rest2 = false ->
  repo_path DATA_PATH (pre1 ++ "/" ++ name ++ "." ++ rest1) =
  repo_path DATA_PATH (pre2 ++ "/" ++ name ++ "." ++ rest2)
  /\ repo_name (pre1 ++ "/" ++ name ++ "." ++ rest1) = name.
Proof.
  intros Hname Hdot Hr1 Hr2.
  assert (Hkey : forall pre rest, contains "/" rest = false ->
            repo_name (pre ++ "/" ++ name ++ "." ++ rest) = name).
  { intros pre rest Hrest. unfold repo_name.
    change (pre ++ "/" ++ name ++ "." ++ rest)
      with (pre ++ String "/" (name ++ String "." rest)).
    rewrite split_last_eq.
    2:{ rewrite contains_app. simpl. by rewrite Hname, Hrest. }
    destruct (split_first "." (name ++ String "." rest)) as (r & Hs & Hno & Hr).
    set (x := at_first (split "." (name ++ String "." rest))) in *.
    clearbody x. revert x Hs Hno Hr. clear -Hdot.
    induction name as [|c n IH]; intros x Hs Hno Hr.
    - destruct x as [|a x]; [done|]. simpl in *. injection Hs as <- _.
      simpl in Hno. discriminate.
    - simpl in Hdot. apply orb_false_iff in Hdot as [Hc Hn].
      destruct x as [|a x].
      + destruct Hr as [->|[r' ->]]; simpl in Hs; [discriminate|].
        injection Hs as -> _. simpl in Hc. discriminate.
      + simpl in Hs. injection Hs as <- Hs. simpl in Hno.
        apply orb_false_iff in Hno as [_ Hno]. f_equal. by apply IH. }
  unfold repo_path. rewrite (Hkey pre1 rest1 Hr1), (Hkey pre2 rest2 Hr2). by split.
Qed.

Lemma repo_path_ignores_owner_witness :
  repo_path "/data" "https://github.com/alice/tool.git"
  = repo_path "/data" "https://gitlab.com/bob/tool.js.git" /\
  repo_name "https://github.com/alice/tool.git" = "tool".
Proof.
  exact (repo_path_ignores_owner "/data" "https://github.com/alice"
           "https://gitlab.com/bob" "tool" "git" "js.git"
           eq_refl eq_refl eq_refl eq_refl).
Defined.
